(** * The commitment and Merkle-proof client of the withdrawal flow

  A shallow embedding of [src/app/withdraw/lib/merkle.ts]:
  [hexToBytes], [calculateCommitment], [getMerkleProof], [getCurrentRoot],
  [checkCommitmentExists] and [generateCommitmentAndProof], with the
  fragment of the JavaScript run time they rely on ([parseInt], typed
  arrays, BigInt shifts, property reads, [fetch], [console]).

  Conventions.
  - A JavaScript string is a [string]: one [ascii] per code unit, which
    covers the strings whose code units are below 256.
  - A [Uint8Array] is a [list Z] whose elements are kept in [0, 256) by
    [ToUint8]; a [bigint] is a [Z].
  - A function that can throw returns a [completion]; an asynchronous
    function is a [prog], a tree of the requests it issues, run against a
    [network] that answers them. *)

From Stdlib Require Import ZArith String Ascii List Lia.
From stdpp Require Import base tactics option list strings pretty countable.

Set Warnings "-register-all".
Local Open Scope Z_scope.

(** ** Strings *)

Module JsString.

(** [s.startsWith(p)] *)
Definition startsWith (s p : string) : bool := String.prefix p s.

(** [s.substring(start, stop)]: both indices are clamped to the length and
    swapped when [start > stop]. *)
Definition substring (s : string) (start stop : nat) : string :=
  let lo := Nat.min start stop in
  let hi := Nat.max start stop in
  String.substring lo (hi - lo) s.

(** [s.substring(start)] *)
Definition substring_from (s : string) (start : nat) : string :=
  substring s start (String.length s).

(** The white space and line terminators that [parseInt] skips, among the
    code units below 256: TAB, LF, VT, FF, CR, SP and NBSP. *)
Definition is_white_space (c : ascii) : bool :=
  let n := nat_of_ascii c in
  bool_decide (n = 9 \/ n = 10 \/ n = 11 \/ n = 12 \/ n = 13 \/ n = 32 \/ n = 160)%nat.

Fixpoint trim_start (s : string) : string :=
  match s with
  | String c s' => if is_white_space c then trim_start s' else s
  | EmptyString => s
  end.

(** The value of a digit in radixes up to 36: [0-9], [a-z], [A-Z]. *)
Definition digit_value (c : ascii) : option Z :=
  let n := Z.of_nat (nat_of_ascii c) in
  if (48 <=? n) && (n <=? 57) then Some (n - 48)
  else if (97 <=? n) && (n <=? 122) then Some (n - 97 + 10)
  else if (65 <=? n) && (n <=? 90) then Some (n - 65 + 10)
  else None.

Definition radix_digit (R : Z) (c : ascii) : option Z :=
  match digit_value c with
  | Some d => if d <? R then Some d else None
  | None => None
  end.

(** The digits of the longest prefix of [s] made of radix-[R] digits. *)
Fixpoint digits_prefix (R : Z) (s : string) : list Z :=
  match s with
  | String c s' =>
      match radix_digit R c with
      | Some d => d :: digits_prefix R s'
      | None => []
      end
  | EmptyString => []
  end.

Definition digits_value (R : Z) (ds : list Z) : Z :=
  fold_left (fun acc d => acc * R + d) ds 0.

(** [parseInt(input, radix)] for an integral [radix] in the int32 range.
    [None] stands for NaN. The result is the exact integer, as the Number
    is for digit strings below 2^53; [-0] is not told from [0]. *)
Definition parseInt (input : string) (radix : Z) : option Z :=
  let str := trim_start input in
  let '(sign, str) :=
    match str with
    | String "-" rest => (-1, rest)
    | String "+" rest => (1, rest)
    | _ => (1, str)
    end in
  if bool_decide (radix <> 0 /\ (radix < 2 \/ 36 < radix)) then None
  else
    let R := if bool_decide (radix = 0) then 10 else radix in
    let stripPrefix := bool_decide (radix = 0 \/ radix = 16) in
    let '(R, str) :=
      if stripPrefix && (startsWith str "0x" || startsWith str "0X")
      then (16, substring_from str 2)
      else (R, str) in
    match digits_prefix R str with
    | [] => None
    | ds => Some (sign * digits_value R ds)
    end.

End JsString.

(** ** Thrown values and completions *)

(** What a [throw] carries: an instance of [Error] with its [name] and
  [message], or some other value, kept as its [String(v)] rendering, the
  only observation the code makes of it. *)
Inductive thrown : Type :=
| ErrorObject (name message : string)
| NonError (rendering : string).

(** [new Error(message)] *)
Definition new_Error (message : string) : thrown := ErrorObject "Error" message.

(** [error instanceof Error ? error.message : String(error)] *)
Definition error_text (error : thrown) : string :=
  match error with
  | ErrorObject _ message => message
  | NonError rendering => rendering
  end.

(** The [name] of an [Error] instance, the kind a caller can test for. *)
Definition error_kind (error : thrown) : option string :=
  match error with
  | ErrorObject name _ => Some name
  | NonError _ => None
  end.

Inductive completion (A : Type) : Type :=
| Normal (a : A)
| Throw (e : thrown).
Arguments Normal {A} a.
Arguments Throw {A} e.

Definition completion_bind {A B} (c : completion A) (f : A -> completion B) : completion B :=
  match c with
  | Normal a => f a
  | Throw e => Throw e
  end.

Declare Scope completion_scope.
Delimit Scope completion_scope with completion.
Notation "'let!' x ':=' c 'in' k" := (completion_bind c (fun x => k))
  (at level 10, x name, c at level 200, k at level 200) : completion_scope.

(** ** Values read from a JSON body *)

Section Values.
Variable number : Type.

(** A value as [JSON.parse] builds it, and [undefined] for the property
    that is not there. An object lists its own properties, each key
    once. *)
Inductive jsval : Type :=
| VUndefined
| VNull
| VBool (b : bool)
| VNum (n : number)
| VStr (s : string)
| VArr (items : list jsval)
| VObj (fields : list (string * jsval)).
End Values.
Arguments VUndefined {number}.
Arguments VNull {number}.
Arguments VBool {number} b.
Arguments VNum {number} n.
Arguments VStr {number} s.
Arguments VArr {number} items.
Arguments VObj {number} fields.

(** What the code takes from its run time and from [viem]. *)
Class Runtime : Type := {
  (** the Number type, with [ToBoolean] on it *)
  number : Type;
  number_truthy : number -> bool;
  (** [ToString], as a template literal applies it; on a string it is the
      identity *)
  ToString : jsval number -> completion string;
  ToString_VStr : forall s, ToString (VStr s) = Normal s;
  (** the messages of the errors the engine itself raises *)
  msg_read_of_nullish : string -> string;
  msg_offset_out_of_bounds : string;
  (** [keccak256] of [viem], from bytes to a [0x] hex string *)
  keccak256 : list Z -> string;
}.

(** ** Typed arrays *)

Module Uint8Array.

(** [new Uint8Array(n)] *)
Definition new (n : nat) : list Z := replicate n 0.

(** The conversion applied on every store; [None] is NaN. *)
Definition ToUint8 (x : option Z) : Z :=
  match x with
  | None => 0
  | Some n => n mod 256
  end.

(** [a[i] = x]: a store outside the array is ignored. *)
Definition store (a : list Z) (i : nat) (x : option Z) : list Z :=
  <[ i := ToUint8 x ]> a.

(** [target.set(source, offset)]: a RangeError when the source does not
    fit. *)
Definition set `{Runtime} (target source : list Z) (offset : nat) : completion (list Z) :=
  if bool_decide (offset + length source <= length target)%nat
  then Normal (take offset target ++ source ++ drop (offset + length source) target)
  else Throw (ErrorObject "RangeError" msg_offset_out_of_bounds).

End Uint8Array.

(** ** The commitment encoder *)

Section Commitment.
Context `{Runtime}.
Import JsString.
Local Open Scope completion_scope.

(** [for (let i = 0; i < n; i++) body] over a threaded state *)
Definition for_upto {St : Type} (n : nat) (body : St -> nat -> St) (init : St) : St :=
  foldl body init (seq 0 n).

Definition hexToBytes (hex : string) : list Z :=
  let hex := if startsWith hex "0x" then substring_from hex 2 else hex in
  let bytes := Uint8Array.new (String.length hex / 2) in
  for_upto (length bytes)
    (fun bytes i =>
       Uint8Array.store bytes i (parseInt (substring hex (i * 2) (i * 2 + 2)) 16))
    bytes.

(** [Number((x >> BigInt(i * 8)) & BigInt(0xff))] *)
Definition shifted_byte (x : Z) (i : nat) : Z :=
  Z.land (Z.shiftr x (Z.of_nat (i * 8))) 255.

Definition calculateCommitment (secret nullifier : string) (assetId amount : Z)
  : completion string :=
  let secretBytes := hexToBytes secret in
  let nullifierBytes := hexToBytes nullifier in
  let assetIdBytes := Uint8Array.new 32 in
  let amountBytes := Uint8Array.new 32 in
  let '(assetIdBytes, amountBytes) :=
    for_upto 32
      (fun '(assetIdBytes, amountBytes) i =>
         (Uint8Array.store assetIdBytes (31 - i) (Some (shifted_byte assetId i)),
          Uint8Array.store amountBytes (31 - i) (Some (shifted_byte amount i))))
      (assetIdBytes, amountBytes) in
  let combined :=
    Uint8Array.new
      (length secretBytes + length nullifierBytes
       + length assetIdBytes + length amountBytes) in
  let! combined := Uint8Array.set combined secretBytes 0 in
  let! combined := Uint8Array.set combined nullifierBytes (length secretBytes) in
  let! combined :=
    Uint8Array.set combined assetIdBytes
      (length secretBytes + length nullifierBytes) in
  let! combined :=
    Uint8Array.set combined amountBytes
      (length secretBytes + length nullifierBytes + length assetIdBytes) in
  Normal (keccak256 combined).

End Commitment.

(** ** Requests, responses and asynchronous programs *)

(** The arguments of a [fetch] call: the URL and the [init] object. *)
Record request : Type := {
  url : string;
  method : string;
  headers : list (string * string);
  body : option string;
}.

Module Json.

Definition dquote : string := String (ascii_of_nat 34) EmptyString.

Definition hex_char (n : nat) : ascii :=
  if (n <? 10)%nat then ascii_of_nat (48 + n) else ascii_of_nat (87 + n).

(** One code unit of a quoted JSON string. *)
Definition escape_char (c : ascii) : string :=
  let n := nat_of_ascii c in
  if (n =? 8)%nat then "\b"
  else if (n =? 9)%nat then "\t"
  else if (n =? 10)%nat then "\n"
  else if (n =? 12)%nat then "\f"
  else if (n =? 13)%nat then "\r"
  else if (n =? 34)%nat then "\" +:+ dquote
  else if (n =? 92)%nat then "\\"
  else if (n <? 32)%nat
       then "\u00" +:+ String (hex_char (n / 16)) (String (hex_char (n mod 16)) EmptyString)
  else String c EmptyString.

Fixpoint escape (s : string) : string :=
  match s with
  | EmptyString => EmptyString
  | String c rest => escape_char c +:+ escape rest
  end.

(** [JSON.stringify(s)] for a string [s] *)
Definition quote (s : string) : string := dquote +:+ escape s +:+ dquote.

(** [JSON.stringify({ commitment })] for a string [commitment] *)
Definition stringify_commitment (commitment : string) : string :=
  "{" +:+ quote "commitment" +:+ ":" +:+ quote commitment +:+ "}".

End Json.

Inductive console_level : Type := Log | Error.

Section Client.
Context `{Runtime}.

Local Abbreviation value := (jsval number).

(** A [Response], with what reading its body as text or as JSON gives. *)
Record response : Type := {
  ok : bool;
  text : completion string;
  json : completion value;
}.

Inductive console_arg : Type :=
| ArgStr (s : string)
| ArgVal (v : value)
| ArgErr (e : thrown).

(** An asynchronous computation: it returns, throws, awaits a [fetch] and
    goes on with the settled promise, or writes to the console. *)
Inductive prog (A : Type) : Type :=
| Ret (a : A)
| Raise (e : thrown)
| Fetch (req : request) (k : completion response -> prog A)
| Console (lvl : console_level) (args : list console_arg) (k : prog A).
Arguments Ret {A} a.
Arguments Raise {A} e.
Arguments Fetch {A} req k.
Arguments Console {A} lvl args k.

Fixpoint bind {A B : Type} (p : prog A) (f : A -> prog B) : prog B :=
  match p with
  | Ret a => f a
  | Raise e => Raise e
  | Fetch req k => Fetch req (fun answer => bind (k answer) f)
  | Console lvl args k => Console lvl args (bind k f)
  end.

(** [try { p } catch (error) { handler }] *)
Fixpoint try_catch {A : Type} (p : prog A) (handler : thrown -> prog A) : prog A :=
  match p with
  | Ret a => Ret a
  | Raise e => handler e
  | Fetch req k => Fetch req (fun answer => try_catch (k answer) handler)
  | Console lvl args k => Console lvl args (try_catch k handler)
  end.

(** A synchronous step inside an asynchronous function, and the [await] of
    a promise that has settled. *)
Definition lift {A : Type} (c : completion A) : prog A :=
  match c with
  | Normal a => Ret a
  | Throw e => Raise e
  end.

(** [await fetch(url, init)] *)
Definition fetch (req : request) : prog response := Fetch req lift.

Definition console_log (args : list console_arg) : prog unit := Console Log args (Ret tt).
Definition console_error (args : list console_arg) : prog unit := Console Error args (Ret tt).

Declare Scope prog_scope.
Delimit Scope prog_scope with prog.
Notation "'let*' x ':=' p 'in' k" := (bind p (fun x => k))
  (at level 10, x name, p at level 200, k at level 200) : prog_scope.
Notation "p ;; k" := (bind p (fun _ => k))
  (at level 100, k at level 200, right associativity) : prog_scope.
Local Open Scope prog_scope.

(** ** Reading a parsed body *)

Fixpoint lookup_field (fields : list (string * value)) (key : string) : value :=
  match fields with
  | [] => VUndefined
  | (k, v) :: rest => if String.eqb k key then v else lookup_field rest key
  end.

(** [v.key] for a [key] that is no built-in property: a TypeError on
    [null] and [undefined], the own property of an object, [undefined] on
    anything else. *)
Definition get_property (v : value) (key : string) : completion value :=
  match v with
  | VUndefined | VNull => Throw (ErrorObject "TypeError" (msg_read_of_nullish key))
  | VObj fields => Normal (lookup_field fields key)
  | VBool _ | VNum _ | VStr _ | VArr _ => Normal VUndefined
  end.

Definition ToBoolean (v : value) : bool :=
  match v with
  | VUndefined | VNull => false
  | VBool b => b
  | VNum n => number_truthy n
  | VStr s => negb (String.eqb s EmptyString)
  | VArr _ | VObj _ => true
  end.

(** ** The client *)

Definition getMerkleProof (commitment : string) : prog value :=
  try_catch
    (console_log [ArgStr "🌲 Client: Fetching Merkle proof for commitment:";
                  ArgStr commitment] ;;
     let* response :=
       fetch {| url := "/api/getMerkleProof";
                method := "POST";
                headers := [("Content-Type", "application/json")];
                body := Some (Json.stringify_commitment commitment) |} in
     if negb (ok response) then
       let* errorText := lift (text response) in
       console_error [ArgStr "🌲 Client: Failed to get Merkle proof:"; ArgStr errorText] ;;
       Raise (new_Error ("Failed to get Merkle proof: " +:+ errorText))
     else
       let* data := lift (json response) in
       console_log [ArgStr "🌲 Client: Merkle proof response:"; ArgVal data] ;;
       let* success := lift (get_property data "success") in
       if negb (ToBoolean success) then
         let* error := lift (get_property data "error") in
         let* rendered := lift (ToString error) in
         Raise (new_Error ("API error: " +:+ rendered))
       else
         lift (get_property data "merkleProof"))
    (fun error =>
       console_error [ArgStr "🌲 Client: Error fetching Merkle proof:"; ArgErr error] ;;
       Raise (new_Error ("Could not retrieve Merkle proof: " +:+ error_text error))).

Definition getCurrentRoot : prog value :=
  try_catch
    (let* response :=
       fetch {| url := "/api/getContractRoot";
                method := "GET";
                headers := [];
                body := None |} in
     if negb (ok response) then
       let* errorText := lift (text response) in
       console_error [ArgStr "🌲 Client: Failed to get current root:"; ArgStr errorText] ;;
       Raise (new_Error ("Failed to get current root: " +:+ errorText))
     else
       let* data := lift (json response) in
       console_log [ArgStr "🌲 Client: Current root response:"; ArgVal data] ;;
       let* success := lift (get_property data "success") in
       if negb (ToBoolean success) then
         let* error := lift (get_property data "error") in
         let* rendered := lift (ToString error) in
         Raise (new_Error ("API error: " +:+ rendered))
       else
         lift (get_property data "root"))
    (fun error =>
       console_error [ArgStr "🌲 Client: Error fetching current root:"; ArgErr error] ;;
       Raise (new_Error ("Could not retrieve current root: " +:+ error_text error))).

Definition checkCommitmentExists (commitment : string) : prog value :=
  try_catch
    (console_log [ArgStr "🌲 Client: Checking if commitment exists:"; ArgStr commitment] ;;
     let* response :=
       fetch {| url := "/api/checkCommitment";
                method := "POST";
                headers := [("Content-Type", "application/json")];
                body := Some (Json.stringify_commitment commitment) |} in
     if negb (ok response) then
       let* errorText := lift (text response) in
       console_error [ArgStr "🌲 Client: Failed to check commitment:"; ArgStr errorText] ;;
       Raise (new_Error ("Failed to check commitment: " +:+ errorText))
     else
       let* data := lift (json response) in
       console_log [ArgStr "🌲 Client: Commitment check response:"; ArgVal data] ;;
       let* success := lift (get_property data "success") in
       if negb (ToBoolean success) then
         let* error := lift (get_property data "error") in
         let* rendered := lift (ToString error) in
         Raise (new_Error ("API error: " +:+ rendered))
       else
         let* exists_ := lift (get_property data "exists") in
         let* index := lift (get_property data "index") in
         Ret (VObj [("exists", exists_); ("index", index)]))
    (fun error =>
       console_error [ArgStr "🌲 Client: Error checking commitment:"; ArgErr error] ;;
       Raise (new_Error ("Could not check commitment: " +:+ error_text error))).

(** What [generateCommitmentAndProof] resolves to. *)
Record withdrawal : Type := {
  commitment : string;
  merkleProof : value;
  root : value;
}.

Definition generateCommitmentAndProof (secret nullifier : string) (assetId amount : Z)
  : prog withdrawal :=
  let* commitment := lift (calculateCommitment secret nullifier assetId amount) in
  console_log [ArgStr "🌲 Client: Generated commitment:"; ArgStr commitment] ;;
  let* merkleProof := getMerkleProof commitment in
  let* root := getCurrentRoot in
  Ret {| commitment := commitment; merkleProof := merkleProof; root := root |}.

(** ** Running a program against the network *)

(** What a run leaves behind, in order. *)
Inductive event : Type :=
| EvFetch (req : request) (answer : completion response)
| EvConsole (lvl : console_level) (args : list console_arg).

(** The other side of [fetch]: how the request issued after [n] earlier
    ones of the run is settled. The answer to one request may change from
    one moment to the next. *)
Definition network : Type := nat -> request -> completion response.

Fixpoint run {A : Type} (p : prog A) (net : network) (clock : nat)
  : list event * completion A :=
  match p with
  | Ret a => ([], Normal a)
  | Raise e => ([], Throw e)
  | Fetch req k =>
      let answer := net clock req in
      let '(trace, result) := run (k answer) net (S clock) in
      (EvFetch req answer :: trace, result)
  | Console lvl args k =>
      let '(trace, result) := run k net clock in
      (EvConsole lvl args :: trace, result)
  end.

(** The requests of a trace, in the order they were sent. *)
Fixpoint requests (trace : list event) : list request :=
  match trace with
  | [] => []
  | EvFetch req _ :: rest => req :: requests rest
  | EvConsole _ _ :: rest => requests rest
  end.

End Client.
Arguments Ret {_ A} a.
Arguments Raise {_ A} e.
Arguments Fetch {_ A} req k.
Arguments Console {_ A} lvl args k.

(** ** The encoder as the specification words it *)

Module Spec.

(** The position of a character in an alphabet. *)
Fixpoint index_of (c : ascii) (alphabet : string) : option Z :=
  match alphabet with
  | EmptyString => None
  | String d rest => if Ascii.eqb c d then Some 0 else Z.succ <$> index_of c rest
  end.

(** The value of a hexadecimal digit, in either case. *)
Definition hex_digit (c : ascii) : option Z :=
  match index_of c "0123456789abcdef" with
  | Some d => Some d
  | None => index_of c "0123456789ABCDEF"
  end.

(** Two digits per byte, high digit first; an odd number of digits or a
    character that is no digit is malformed. *)
Fixpoint decode_pairs (s : string) : option (list Z) :=
  match s with
  | EmptyString => Some []
  | String _ EmptyString => None
  | String hi (String lo rest) =>
      match hex_digit hi, hex_digit lo, decode_pairs rest with
      | Some h, Some l, Some bytes => Some (16 * h + l :: bytes)
      | _, _, _ => None
      end
  end.

Definition strip_0x (s : string) : string :=
  match s with
  | String "0" (String "x" rest) => rest
  | _ => s
  end.

(** The bytes a hex string denotes, [None] when it is malformed. *)
Definition hex_decode (s : string) : option (list Z) := decode_pairs (strip_0x s).

Definition valid_hex (s : string) : Prop := is_Some (hex_decode s).

(** Every character is a hexadecimal digit. *)
Fixpoint hex_digits (s : string) : Prop :=
  match s with
  | EmptyString => True
  | String c rest => is_Some (hex_digit c) /\ hex_digits rest
  end.

Definition uint256 (n : Z) : Prop := 0 <= n < 2 ^ 256.

(** The [width]-byte big-endian encoding: byte [k] from the left holds the
    base-256 digit of weight [256 ^ (width - 1 - k)]. *)
Definition big_endian (width : nat) (n : Z) : list Z :=
  map (fun k => (n / 256 ^ Z.of_nat (width - 1 - k)) mod 256) (seq 0 width).

Definition be32 (n : Z) : list Z := big_endian 32 n.

(** The integer a big-endian byte string denotes. *)
Definition be_value (bytes : list Z) : Z :=
  fold_left (fun acc b => acc * 256 + b) bytes 0.

(** Every element is a byte. *)
Definition is_bytes (l : list Z) : Prop := Forall (fun b => 0 <= b < 256) l.

End Spec.

(** ** What the statements below speak of *)

Section Vocabulary.
Context `{Runtime}.
Import JsString.

(** The input of the loop of [hexToBytes]. *)
Definition strip_prefix (hex : string) : string :=
  if startsWith hex "0x" then substring_from hex 2 else hex.

(** The bytes that [calculateCommitment] hashes. *)
Definition preimage (secret nullifier : string) (assetId amount : Z) : list Z :=
  hexToBytes secret ++ hexToBytes nullifier ++ Spec.be32 assetId ++ Spec.be32 amount.

(** The hash has no collision among byte strings. *)
Definition collision_free : Prop :=
  forall x y : list Z, Spec.is_bytes x -> Spec.is_bytes y -> keccak256 x = keccak256 y -> x = y.

(** The request that asks the indexer for the proof of [commitment]. *)
Definition proof_request (commitment : string) : request :=
  {| url := "/api/getMerkleProof";
     method := "POST";
     headers := [("Content-Type", "application/json")];
     body := Some (Json.stringify_commitment commitment) |}.

(** The request that asks whether [commitment] is known. *)
Definition check_request (commitment : string) : request :=
  {| url := "/api/checkCommitment";
     method := "POST";
     headers := [("Content-Type", "application/json")];
     body := Some (Json.stringify_commitment commitment) |}.

(** The request that reads the current root. *)
Definition root_request : request :=
  {| url := "/api/getContractRoot"; method := "GET"; headers := []; body := None |}.

(** The answer is a success response whose body holds [v] under [field]:
    the status is ok, the body parses, and its [success] is truthy. *)
Inductive delivers (field : string) : completion response -> jsval number -> Prop :=
| delivers_field r data success v :
    ok r = true ->
    json r = Normal data ->
    get_property data "success" = Normal success ->
    ToBoolean success = true ->
    get_property data field = Normal v ->
    delivers field (Normal r) v.

(** The ways an exchange fails, each with the message it leaves:
    [failure_label] is what the client puts before the body of a response
    that is not ok. The first three are the network failure, the
    non-success response and the body whose [success] is falsy; the others
    are a body that cannot be read or used. *)
Inductive fails (failure_label : string) : completion response -> string -> Prop :=
| fails_network e :
    fails failure_label (Throw e) (error_text e)
| fails_status r errorText :
    ok r = false ->
    text r = Normal errorText ->
    fails failure_label (Normal r) (failure_label +:+ errorText)
| fails_api r data success error rendered :
    ok r = true ->
    json r = Normal data ->
    get_property data "success" = Normal success ->
    ToBoolean success = false ->
    get_property data "error" = Normal error ->
    ToString error = Normal rendered ->
    fails failure_label (Normal r) ("API error: " +:+ rendered)
| fails_text r e :
    ok r = false ->
    text r = Throw e ->
    fails failure_label (Normal r) (error_text e)
| fails_json r e :
    ok r = true ->
    json r = Throw e ->
    fails failure_label (Normal r) (error_text e)
| fails_nullish r data e :
    ok r = true ->
    json r = Normal data ->
    get_property data "success" = Throw e ->
    fails failure_label (Normal r) (error_text e)
| fails_rendering r data success error e :
    ok r = true ->
    json r = Normal data ->
    get_property data "success" = Normal success ->
    ToBoolean success = false ->
    get_property data "error" = Normal error ->
    ToString error = Throw e ->
    fails failure_label (Normal r) (error_text e).

(** The two failures of the proof fetch that the specification tells
    apart, each with the message it leaves. A service failure: the network
    fails, or the response is not ok. A commitment that is not found: a
    response that is ok and whose body says [success: false] with an
    [error] string. *)
Inductive service_failure : completion response -> string -> Prop :=
| service_unreachable e :
    service_failure (Throw e) (error_text e)
| service_status r errorText :
    ok r = false ->
    text r = Normal errorText ->
    service_failure (Normal r) ("Failed to get Merkle proof: " +:+ errorText).

Inductive commitment_not_found : completion response -> string -> Prop :=
| not_found_body r fields error :
    ok r = true ->
    json r = Normal (VObj fields) ->
    lookup_field fields "success" = VBool false ->
    lookup_field fields "error" = VStr error ->
    commitment_not_found (Normal r) ("API error: " +:+ error).

(** [len(siblings) == len(pathIndices)] on a value taken as a MerkleProof *)
Definition lengths_agree (proof : jsval number) : Prop :=
  exists siblings pathIndices,
    get_property proof "siblings" = Normal (VArr siblings)
    /\ get_property proof "pathIndices" = Normal (VArr pathIndices)
    /\ length siblings = length pathIndices.

End Vocabulary.

(** ** A run time to evaluate with

    Numbers are the integers, rendered in decimal; the messages are those
    of V8; the hash is a stand-in that has no collision. *)

Fixpoint sample_ToString (v : jsval Z) : completion string :=
  match v with
  | VUndefined => Normal "undefined"
  | VNull => Normal "null"
  | VBool b => Normal (if b then "true" else "false")
  | VNum n => Normal (pretty n)
  | VStr s => Normal s
  | VArr items =>
      (* [Array.prototype.join]: [null] and [undefined] render as nothing *)
      (fix join (items : list (jsval Z)) : completion string :=
         match items with
         | [] => Normal EmptyString
         | item :: rest =>
             let rendered :=
               match item with
               | VUndefined | VNull => Normal EmptyString
               | _ => sample_ToString item
               end in
             completion_bind rendered (fun first =>
             match rest with
             | [] => Normal first
             | _ :: _ =>
                 completion_bind (join rest) (fun others =>
                 Normal (first +:+ "," +:+ others))
             end)
         end) items
  | VObj fields =>
      (* an own [toString], which is no function in a parsed body, leaves
         no way to a primitive *)
      if existsb (fun field => String.eqb (fst field) "toString") fields
      then Throw (ErrorObject "TypeError" "Cannot convert object to primitive value")
      else Normal "[object Object]"
  end.

Definition sample_keccak256 (bytes : list Z) : string := pretty (encode bytes).

Definition sample_runtime : Runtime :=
  {| number := Z;
     number_truthy := fun n => negb (n =? 0);
     ToString := sample_ToString;
     ToString_VStr := fun s => eq_refl;
     msg_read_of_nullish :=
       fun key => "Cannot read properties of null (reading '" +:+ key +:+ "')";
     msg_offset_out_of_bounds := "offset is out of bounds";
     keccak256 := sample_keccak256 |}.

(** Networks to evaluate with: one that answers every request alike. *)
Definition always (answer : completion (@response sample_runtime)) : @network sample_runtime :=
  fun _ _ => answer.

Definition json_response (status_ok : bool) (data : jsval Z)
  : completion (@response sample_runtime) :=
  Normal (@Build_response sample_runtime status_ok (Normal "{}") (Normal data)).

Definition text_response (status_ok : bool) (content : string)
  : completion (@response sample_runtime) :=
  Normal (@Build_response sample_runtime status_ok (Normal content)
            (Throw (ErrorObject "SyntaxError" "Unexpected token"))).

(** Bodies to evaluate with. *)
Definition lopsided_proof : jsval Z :=
  VObj [("siblings", VArr [VStr "0x11"]); ("pathIndices", VArr [])].

Definition proof_body (proof : jsval Z) : jsval Z :=
  VObj [("success", VBool true); ("merkleProof", proof)].

Definition root_body (current : string) : jsval Z :=
  VObj [("success", VBool true); ("root", VStr current)].

Definition failure_body (error : string) : jsval Z :=
  VObj [("success", VBool false); ("error", VStr error)].

(** The indexer answers the proof request, the contract proxy the root
    request; the root moves from ["0xaa"] to ["0xbb"] after the first
    request of the run. *)
Definition moving_root_network : @network sample_runtime :=
  fun clock req =>
    if String.eqb (url req) "/api/getMerkleProof"
    then json_response true (proof_body lopsided_proof)
    else json_response true (root_body (if (clock =? 0)%nat then "0xaa" else "0xbb")).

(** ** More vocabulary *)

(** The upper-case form of the hexadecimal digits [a] to [f]; any other
    character is left as it is. *)
Definition upper_hex_digit (c : ascii) : ascii :=
  let n := nat_of_ascii c in
  if (97 <=? n)%nat && (n <=? 102)%nat then ascii_of_nat (n - 32) else c.

Fixpoint upper_hex_digits (s : string) : string :=
  match s with
  | EmptyString => EmptyString
  | String c rest => String (upper_hex_digit c) (upper_hex_digits rest)
  end.

(** The value of a lower-case hexadecimal digit, as [\u00XX] has them. *)
Definition hex_char_value (c : ascii) : option nat :=
  let n := nat_of_ascii c in
  if (48 <=? n)%nat && (n <=? 57)%nat then Some (n - 48)%nat
  else if (97 <=? n)%nat && (n <=? 102)%nat then Some (n - 87)%nat
  else None.

(** Reads one code unit back from the inside of a quoted JSON string:
    [None] at the closing quote and at what no quoted string holds. *)
Definition unescape_head (s : string) : option (ascii * string) :=
  match s with
  | EmptyString => None
  | String c rest =>
      if (nat_of_ascii c =? 34)%nat then None
      else if (nat_of_ascii c =? 92)%nat then
        match rest with
        | EmptyString => None
        | String x rest =>
            let n := nat_of_ascii x in
            if (n =? 98)%nat then Some (ascii_of_nat 8, rest)
            else if (n =? 116)%nat then Some (ascii_of_nat 9, rest)
            else if (n =? 110)%nat then Some (ascii_of_nat 10, rest)
            else if (n =? 102)%nat then Some (ascii_of_nat 12, rest)
            else if (n =? 114)%nat then Some (ascii_of_nat 13, rest)
            else if (n =? 34)%nat then Some (ascii_of_nat 34, rest)
            else if (n =? 92)%nat then Some (ascii_of_nat 92, rest)
            else if (n =? 117)%nat then
              match rest with
              | String "0" (String "0" (String hi (String lo rest))) =>
                  match hex_char_value hi, hex_char_value lo with
                  | Some h, Some l => Some (ascii_of_nat (16 * h + l), rest)
                  | _, _ => None
                  end
              | _ => None
              end
            else None
        end
      else Some (c, rest)
  end.

(** ** The route that serves the root

    [src/app/api/getContractRoot/route.ts]: the handler of
    [GET /api/getContractRoot], which reads the root from the contract
    through [publicClient.readContract] and answers with
    [NextResponse.json]. *)

Module Route.

(** [JSON.stringify] of the objects the route builds: properties that
    hold a boolean or a string, in the order they were written. *)
Inductive plain : Type :=
| PBool (b : bool)
| PStr (s : string).

Definition stringify_plain (p : plain) : string :=
  match p with
  | PBool true => "true"
  | PBool false => "false"
  | PStr s => Json.quote s
  end.

Fixpoint stringify_members (members : list (string * plain)) : string :=
  match members with
  | [] => EmptyString
  | (key, p) :: rest =>
      Json.quote key +:+ ":" +:+ stringify_plain p
      +:+ match rest with
          | [] => EmptyString
          | _ :: _ => "," +:+ stringify_members rest
          end
  end.

Definition stringify_object (members : list (string * plain)) : string :=
  "{" +:+ stringify_members members +:+ "}".

Section Route.
Context `{Runtime}.

(** [@/constants/contract] is not among the sources: the address and the
    ABI are taken as they come. *)
Variable abi : Type.
Variable CONTRACT_ADDRESS : string.
Variable CONTRACT_ABI : abi.

(** The argument of [publicClient.readContract]. *)
Record contract_call : Type := {
  address : string;
  abi_of : abi;
  functionName : string;
  args : list (jsval number);
}.

Inductive route_event : Type :=
| Called (call : contract_call) (answer : completion string)
| Printed (lvl : console_level) (args : list console_arg).

(** The handler as a computation: it returns, throws, awaits a contract
    read or writes to the console. The ABI is not among the sources: a
    read that succeeds is taken to give a string, as [viem] gives the
    [bytes32] root of the contract. *)
Inductive handler (A : Type) : Type :=
| Done (a : A)
| Fail (e : thrown)
| ReadContract (call : contract_call) (k : completion string -> handler A)
| Print (lvl : console_level) (args : list console_arg) (k : handler A).
Arguments Done {A} a.
Arguments Fail {A} e.
Arguments ReadContract {A} call k.
Arguments Print {A} lvl args k.

Fixpoint and_then {A B : Type} (h : handler A) (f : A -> handler B) : handler B :=
  match h with
  | Done a => f a
  | Fail e => Fail e
  | ReadContract call k => ReadContract call (fun answer => and_then (k answer) f)
  | Print lvl args k => Print lvl args (and_then k f)
  end.

Fixpoint catch {A : Type} (h : handler A) (recover : thrown -> handler A) : handler A :=
  match h with
  | Done a => Done a
  | Fail e => recover e
  | ReadContract call k => ReadContract call (fun answer => catch (k answer) recover)
  | Print lvl args k => Print lvl args (catch k recover)
  end.

(** [await publicClient.readContract(call)] *)
Definition readContract (call : contract_call) : handler string :=
  ReadContract call (fun answer =>
    match answer with
    | Normal result => Done result
    | Throw e => Fail e
    end).

Definition print (lvl : console_level) (args : list console_arg) : handler unit :=
  Print lvl args (Done tt).

(** [NextResponse.json(body, { status })], as the client that fetched it
    sees it: ok for a status from 200 to 299, the text [JSON.stringify] of
    the body, and the body itself when that text is parsed. *)
Definition NextResponse_json (body : list (string * plain)) (status : Z) : response :=
  {| ok := (200 <=? status) && (status <=? 299);
     text := Normal (stringify_object body);
     json := Normal (VObj (map (fun member =>
                                 (fst member,
                                  match snd member with
                                  | PBool b => VBool b
                                  | PStr s => VStr s
                                  end)) body)) |}.

Definition GET : handler response :=
  catch
    (and_then (print Log [ArgStr "🌲 getContractRoot API: Processing request"]) (fun _ =>
     catch
       (and_then
          (readContract {| address := CONTRACT_ADDRESS;
                           abi_of := CONTRACT_ABI;
                           functionName := "getCurrentRoot";
                           args := [] |}) (fun root =>
        and_then
          (print Log [ArgStr "🌲 getContractRoot API: Current root retrieved:";
                      ArgStr root]) (fun _ =>
        Done (NextResponse_json [("success", PBool true); ("root", PStr root)] 200))))
       (fun contractError =>
          and_then
            (print Error [ArgStr "🌲 getContractRoot API: Contract error:";
                          ArgErr contractError]) (fun _ =>
          Done (NextResponse_json
                  [("success", PBool false);
                   ("error", PStr "Failed to retrieve current root from contract");
                   ("details", PStr (error_text contractError))]
                  500)))))
    (fun error =>
       and_then
         (print Error [ArgStr "🌲 getContractRoot API: Unexpected error:"; ArgErr error])
         (fun _ =>
       Done (NextResponse_json
               [("success", PBool false);
                ("error", PStr "Failed to process request");
                ("details", PStr (error_text error))]
               500))).

(** Runs the handler against a contract. *)
Fixpoint serve {A : Type} (h : handler A) (contract : contract_call -> completion string)
  : list route_event * completion A :=
  match h with
  | Done a => ([], Normal a)
  | Fail e => ([], Throw e)
  | ReadContract call k =>
      let answer := contract call in
      let '(trace, result) := serve (k answer) contract in
      (Called call answer :: trace, result)
  | Print lvl args k =>
      let '(trace, result) := serve k contract in
      (Printed lvl args :: trace, result)
  end.

(** The contract reads of a trace. *)
Fixpoint calls (trace : list route_event) : list contract_call :=
  match trace with
  | [] => []
  | Called call _ :: rest => call :: calls rest
  | Printed _ _ :: rest => calls rest
  end.

(** The one read the route asks for. *)
Definition root_call : contract_call :=
  {| address := CONTRACT_ADDRESS;
     abi_of := CONTRACT_ABI;
     functionName := "getCurrentRoot";
     args := [] |}.

End Route.
End Route.

(** ** The withdraw page

    [src/app/withdraw/page.tsx]: [handleWithdraw], the handler of the
    button, over the state of the form. *)

Module WithdrawPage.

Definition TORNADO_CONTRACT_ADDRESS : string := "0xb581c9264f59bf0289fa76d61b2d0746dce3c30d".

(** [zeroAddress] of [viem] *)
Definition zeroAddress : string := "0x0000000000000000000000000000000000000000".

Record abi_input : Type := { input_name : string; input_type : string }.

Record abi_function : Type := {
  abi_type : string;
  abi_name : string;
  stateMutability : string;
  inputs : list abi_input;
}.

Definition TornadoAbi : list abi_function :=
  [ {| abi_type := "function";
       abi_name := "withdraw";
       stateMutability := "nonpayable";
       inputs := [ {| input_name := "root"; input_type := "bytes32" |};
                   {| input_name := "nullifierHash"; input_type := "bytes32" |};
                   {| input_name := "recipient"; input_type := "address" |} ] |} ].

(** The argument of [writeContract]. *)
Record contract_write : Type := {
  abi : list abi_function;
  address : string;
  functionName : string;
  args : list string;
}.

(** What a click does: it shows an alert, or it sets a timer that calls
    [writeContract]. *)
Inductive effect : Type :=
| Alert (message : string)
| SetTimeout (call : contract_write) (delay : Z).

Section Handler.

(** [isAddress] of [viem] *)
Variable isAddress : string -> bool.

(** [!s] for a string: true on the empty string only. *)
Definition is_empty (s : string) : bool := String.eqb s EmptyString.

(** The state of the form, [selectedToken], [root], [nullifierHash] and
    [recipient], and whether the hook has given a [writeContract]. *)
Definition handleWithdraw
    (selectedToken root nullifierHash recipient : string) (writeContract : bool) : effect :=
  if negb (String.eqb selectedToken "ETH") then
    Alert "This contract only supports ETH (fixed 1ETH) withdraw"
  else if is_empty root || is_empty nullifierHash || is_empty recipient then
    Alert "Please fill in root, nullifierHash, recipient"
  else if negb (isAddress recipient) || String.eqb recipient zeroAddress then
    Alert "Invalid recipient address"
  else if negb writeContract then
    Alert "Withdraw not ready (wagmi hook not initialized?)"
  else
    SetTimeout
      {| abi := TornadoAbi;
         address := TORNADO_CONTRACT_ADDRESS;
         functionName := "withdraw";
         args := [root; nullifierHash; recipient] |}
      100.

End Handler.
End WithdrawPage.

(** A contract and a page to evaluate with. *)
Definition sample_contract (outcome : completion string)
  : @Route.contract_call sample_runtime unit -> completion string :=
  fun _ => outcome.

Definition served_by (outcome : completion string) : @network sample_runtime :=
  fun _ _ =>
    snd (@Route.serve sample_runtime unit _
           (@Route.GET sample_runtime unit "0xc0ffee" tt) (sample_contract outcome)).

Definition sample_isAddress (s : string) : bool := (String.length s =? 42)%nat.

(** ** The run time on small inputs *)

Example parseInt_pairs :
  map (fun pair => JsString.parseInt pair 16) ["ff"; "0F"; "-1"; " 1"; "+f"; "1z"; "zz"; "0x"]
  = [Some 255; Some 15; Some (-1); Some 1; Some 15; Some 1; None; None].
Proof. reflexivity. Qed.

Example hexToBytes_small :
  hexToBytes "0x01ff" = [1; 255] /\ hexToBytes "01FF" = [1; 255]
  /\ hexToBytes "0x" = [] /\ hexToBytes "0x1" = [] /\ hexToBytes "-1 1" = [255; 1].
Proof. repeat split. Qed.

Example stringify_commitment_small :
  Json.stringify_commitment "0xab"
  = "{" +:+ Json.dquote +:+ "commitment" +:+ Json.dquote +:+ ":"
    +:+ Json.dquote +:+ "0xab" +:+ Json.dquote +:+ "}"
  /\ Json.escape (String (ascii_of_nat 10) (String (ascii_of_nat 31) "\")) = "\n\u001f\\".
Proof. split; reflexivity. Qed.

(** The example of the specification: [secret = "0x01"],
    [nullifier = "0x02"], [assetId = 1], [amount = 10 ^ 18]. *)
Example preimage_of_the_example :
  preimage "0x01" "0x02" 1 1000000000000000000
  = [1; 2]
    ++ replicate 31 0 ++ [1]
    ++ replicate 24 0 ++ [13; 224; 182; 179; 167; 100; 0; 0].
Proof. reflexivity. Qed.

(** Case analysis on the eight bits of a character. *)
Ltac each_character c :=
  let b0 := fresh "b" in let b1 := fresh "b" in let b2 := fresh "b" in
  let b3 := fresh "b" in let b4 := fresh "b" in let b5 := fresh "b" in
  let b6 := fresh "b" in let b7 := fresh "b" in
  destruct c as [b0 b1 b2 b3 b4 b5 b6 b7];
  destruct b0, b1, b2, b3, b4, b5, b6, b7.

Section CommitmentFacts.
Context `{Runtime}.
Import JsString.

Lemma hex_digit_radix c d : Spec.hex_digit c = Some d -> radix_digit 16 c = Some d /\ 0 <= d < 16.
Proof.
  each_character c; cbn; intros [= <-]; (split; [reflexivity | lia]).
Qed.

Lemma hex_digit_plain c d :
  Spec.hex_digit c = Some d ->
  is_white_space c = false /\ c <> "-"%char /\ c <> "+"%char /\ c <> "x"%char /\ c <> "X"%char.
Proof.
  each_character c; cbn; intros [= <-]; repeat split; discriminate.
Qed.

Lemma parseInt_hex_pair hi lo h l :
  Spec.hex_digit hi = Some h -> Spec.hex_digit lo = Some l ->
  parseInt (String hi (String lo EmptyString)) 16 = Some (16 * h + l).
Proof.
  intros Hh Hl.
  each_character hi; try discriminate Hh;
  injection Hh as <-;
  (each_character lo; try discriminate Hl;
   injection Hl as <-; vm_compute; reflexivity).
Qed.

Lemma substring_pair_head hi lo rest :
  substring (String hi (String lo rest)) (0 * 2) (0 * 2 + 2) = String hi (String lo EmptyString).
Proof. destruct rest; reflexivity. Qed.

Lemma substring_pair_tail hi lo rest i :
  substring (String hi (String lo rest)) (S i * 2) (S i * 2 + 2)
  = substring rest (i * 2) (i * 2 + 2).
Proof.
  unfold substring.
  rewrite !Nat.min_l, !Nat.max_r by lia.
  replace (S i * 2 + 2 - S i * 2)%nat with 2%nat by lia.
  replace (i * 2 + 2 - i * 2)%nat with 2%nat by lia.
  replace (S i * 2)%nat with (S (S (i * 2))) by lia.
  reflexivity.
Qed.

(** The loop of [hexToBytes] fills the fresh array from left to right. *)
Lemma for_upto_store_from (f : nat -> option Z) (todo filled : list Z) :
  foldl (fun a i => Uint8Array.store a i (f i)) (filled ++ todo)
        (seq (length filled) (length todo))
  = filled ++ map (fun i => Uint8Array.ToUint8 (f i)) (seq (length filled) (length todo)).
Proof.
  revert filled. induction todo as [|x todo IH]; intros filled; [reflexivity|].
  cbn [length seq foldl map]. unfold Uint8Array.store at 2.
  replace (length filled) with (length filled + 0)%nat at 1 by lia.
  rewrite insert_app_r. cbn [insert list_insert].
  specialize (IH (filled ++ [Uint8Array.ToUint8 (f (length filled))])).
  rewrite length_app in IH. cbn [length] in IH.
  replace (length filled + 1)%nat with (S (length filled)) in IH by lia.
  rewrite <- !app_assoc in IH. exact IH.
Qed.

Lemma for_upto_store_fill (f : nat -> option Z) (n : nat) :
  for_upto (length (Uint8Array.new n)) (fun a i => Uint8Array.store a i (f i)) (Uint8Array.new n)
  = map (fun i => Uint8Array.ToUint8 (f i)) (seq 0 n).
Proof.
  unfold for_upto.
  pose proof (for_upto_store_from f (Uint8Array.new n) []) as E.
  cbn [length app] in E. rewrite E.
  unfold Uint8Array.new. now rewrite length_replicate.
Qed.

Lemma hexToBytes_map hex :
  hexToBytes hex
  = map (fun i => Uint8Array.ToUint8
                    (parseInt (substring (strip_prefix hex) (i * 2) (i * 2 + 2)) 16))
        (seq 0 (String.length (strip_prefix hex) / 2)).
Proof. unfold hexToBytes. fold (strip_prefix hex). apply for_upto_store_fill. Qed.

Lemma decode_pairs_bytes h bs :
  Spec.decode_pairs h = Some bs ->
  map (fun i => Uint8Array.ToUint8 (parseInt (substring h (i * 2) (i * 2 + 2)) 16))
      (seq 0 (String.length h / 2)) = bs.
Proof.
  revert h. induction bs as [|b bs IH]; intros h Hd.
  - destruct h as [|hi [|lo rest]]; [reflexivity | discriminate |].
    cbn in Hd. repeat case_match; discriminate.
  - destruct h as [|hi [|lo rest]]; [discriminate | discriminate |].
    cbn [Spec.decode_pairs] in Hd.
    destruct (Spec.hex_digit hi) as [dh|] eqn:Eh; [|discriminate].
    destruct (Spec.hex_digit lo) as [dl|] eqn:El; [|discriminate].
    destruct (Spec.decode_pairs rest) as [bs'|] eqn:Er; [|discriminate].
    injection Hd as <- <-.
    cbn [String.length].
    replace (S (S (String.length rest)) / 2)%nat with (S (String.length rest / 2)).
    2:{ change (S (S (String.length rest))) with (1 * 2 + String.length rest)%nat.
        now rewrite Nat.div_add_l by lia. }
    cbn [seq map]. rewrite substring_pair_head.
    rewrite (parseInt_hex_pair _ _ _ _ Eh El).
    destruct (hex_digit_radix _ _ Eh) as [_ ?], (hex_digit_radix _ _ El) as [_ ?].
    f_equal.
    + cbn. apply Z.mod_small. lia.
    + rewrite <- seq_shift, map_map. rewrite <- (IH rest Er).
      apply map_ext. intros i. now rewrite substring_pair_tail.
Qed.

Lemma startsWith_0x s :
  startsWith s "0x"
  = match s with String "0" (String "x" _) => true | _ => false end.
Proof.
  destruct s as [|a [|b rest]]; [reflexivity | |].
  - each_character a; reflexivity.
  - each_character a; try reflexivity.
    each_character b; try reflexivity.
    destruct rest; reflexivity.
Qed.

Lemma substring_whole s : String.substring 0 (String.length s) s = s.
Proof. induction s as [|c s IH]; [reflexivity|]. cbn. now rewrite IH. Qed.

Lemma substring_from_2 a b rest : substring_from (String a (String b rest)) 2 = rest.
Proof.
  unfold substring_from, substring. cbn [String.length].
  rewrite Nat.min_l, Nat.max_r by lia.
  replace (S (S (String.length rest)) - 2)%nat with (String.length rest) by lia.
  cbn. apply substring_whole.
Qed.

Lemma strip_prefix_spec hex : strip_prefix hex = Spec.strip_0x hex.
Proof.
  unfold strip_prefix. rewrite startsWith_0x.
  destruct hex as [|a [|b rest]]; try reflexivity.
  - each_character a; reflexivity.
  - each_character a; try reflexivity.
    each_character b; try reflexivity.
    apply substring_from_2.
Qed.

(** On a valid hex string [hexToBytes] is the decoder of the
    specification. *)
Lemma hexToBytes_valid hex bytes :
  Spec.hex_decode hex = Some bytes -> hexToBytes hex = bytes.
Proof.
  intros Hd. rewrite hexToBytes_map, strip_prefix_spec.
  now apply decode_pairs_bytes.
Qed.

Lemma shifted_byte_div x i : shifted_byte x i = (x / 256 ^ Z.of_nat i) mod 256.
Proof.
  unfold shifted_byte. change 255 with (Z.ones 8).
  rewrite Z.land_ones, Z.shiftr_div_pow2 by lia.
  change (2 ^ 8) with 256. f_equal. f_equal.
  rewrite Nat2Z.inj_mul, Z.mul_comm. change (Z.of_nat 8) with 8.
  rewrite Z.pow_mul_r by lia. reflexivity.
Qed.

Lemma shifted_byte_range x i : 0 <= shifted_byte x i < 256.
Proof. rewrite shifted_byte_div. apply Z.mod_pos_bound. lia. Qed.

(** The loop of [calculateCommitment] fills both arrays from the right. *)
Lemma encode_loop assetId amount :
  for_upto 32
    (fun '(assetIdBytes, amountBytes) i =>
       (Uint8Array.store assetIdBytes (31 - i) (Some (shifted_byte assetId i)),
        Uint8Array.store amountBytes (31 - i) (Some (shifted_byte amount i))))
    (Uint8Array.new 32, Uint8Array.new 32)
  = (map (fun k => shifted_byte assetId (32 - 1 - k) mod 256) (seq 0 32),
     map (fun k => shifted_byte amount (32 - 1 - k) mod 256) (seq 0 32)).
Proof. reflexivity. Qed.

Lemma encode_loop_be32 x :
  map (fun k => shifted_byte x (32 - 1 - k) mod 256) (seq 0 32) = Spec.be32 x.
Proof.
  unfold Spec.be32, Spec.big_endian. apply map_ext. intros k.
  rewrite Z.mod_small by apply shifted_byte_range. apply shifted_byte_div.
Qed.

Lemma set_at_end (filled source : list Z) (room : nat) :
  Uint8Array.set (filled ++ Uint8Array.new (length source + room)) source (length filled)
  = Normal ((filled ++ source) ++ Uint8Array.new room).
Proof.
  unfold Uint8Array.set, Uint8Array.new.
  rewrite bool_decide_true by (rewrite length_app, length_replicate; lia).
  f_equal. rewrite take_app_length, <- app_assoc. do 2 f_equal.
  rewrite drop_app_add', drop_replicate by reflexivity. f_equal. lia.
Qed.

(** [calculateCommitment] never throws: it hashes the concatenation. *)
Lemma calculateCommitment_preimage secret nullifier assetId amount :
  calculateCommitment secret nullifier assetId amount
  = Normal (keccak256 (preimage secret nullifier assetId amount)).
Proof.
  unfold calculateCommitment, preimage.
  rewrite encode_loop, !encode_loop_be32. cbv iota beta.
  set (s := hexToBytes secret). set (n := hexToBytes nullifier).
  set (a := Spec.be32 assetId). set (m := Spec.be32 amount).
  replace (length s + length n + length a + length m)%nat
    with (length s + (length n + (length a + (length m + 0))))%nat by lia.
  pose proof (set_at_end [] s (length n + (length a + (length m + 0)))) as E.
  cbn [app length] in E. rewrite E. clear E. cbn [completion_bind].
  rewrite (set_at_end s n). cbn [completion_bind].
  rewrite <- length_app, (set_at_end (s ++ n) a). cbn [completion_bind].
  rewrite <- length_app, (set_at_end ((s ++ n) ++ a) m). cbn [completion_bind].
  unfold Uint8Array.new. cbn [replicate].
  now rewrite app_nil_r, <- !app_assoc.
Qed.

Lemma big_endian_S width n :
  Spec.big_endian (S width) n = Spec.big_endian width (n / 256) ++ [n mod 256].
Proof.
  unfold Spec.big_endian. rewrite seq_S, map_app. cbn [map Nat.add]. f_equal.
  - apply map_ext_in. intros k Hk%in_seq.
    replace (S width - 1 - k)%nat with (S (width - 1 - k)) by lia.
    rewrite Nat2Z.inj_succ, Z.pow_succ_r, Z.div_div by lia. reflexivity.
  - replace (S width - 1 - width)%nat with 0%nat by lia.
    now rewrite Z.pow_0_r, Z.div_1_r.
Qed.

Lemma be_value_snoc bytes b : Spec.be_value (bytes ++ [b]) = Spec.be_value bytes * 256 + b.
Proof. unfold Spec.be_value. now rewrite fold_left_app. Qed.

(** Reading a big-endian encoding back gives the integer modulo the
    width. *)
Lemma be_value_big_endian width n :
  Spec.be_value (Spec.big_endian width n) = n mod 256 ^ Z.of_nat width.
Proof.
  revert n. induction width as [|width IH]; intros n.
  - cbn. now rewrite Z.mod_1_r.
  - rewrite big_endian_S, be_value_snoc, IH.
    rewrite Nat2Z.inj_succ, Z.pow_succ_r by lia.
    rewrite Z.rem_mul_r by lia. lia.
Qed.

Lemma be32_uint256 n : Spec.uint256 n -> Spec.be_value (Spec.be32 n) = n.
Proof.
  intros Hn. unfold Spec.be32. rewrite be_value_big_endian.
  apply Z.mod_small. exact Hn.
Qed.

Lemma be32_length n : length (Spec.be32 n) = 32%nat.
Proof. reflexivity. Qed.

Lemma be32_is_bytes n : Spec.is_bytes (Spec.be32 n).
Proof.
  unfold Spec.is_bytes, Spec.be32, Spec.big_endian.
  apply Forall_map, Forall_forall. intros k _. apply Z.mod_pos_bound. lia.
Qed.

Lemma ToUint8_range x : 0 <= Uint8Array.ToUint8 x < 256.
Proof. destruct x; cbn; [apply Z.mod_pos_bound|]; lia. Qed.

Lemma hexToBytes_is_bytes hex : Spec.is_bytes (hexToBytes hex).
Proof.
  rewrite hexToBytes_map. apply Forall_map, Forall_forall.
  intros i _. apply ToUint8_range.
Qed.

Lemma preimage_is_bytes secret nullifier assetId amount :
  Spec.is_bytes (preimage secret nullifier assetId amount).
Proof.
  unfold preimage, Spec.is_bytes.
  rewrite !Forall_app.
  repeat split; first [apply hexToBytes_is_bytes | apply be32_is_bytes].
Qed.

(** C1. For valid hex strings [secret] and [nullifier] and unsigned 256-bit
    [assetId] and [amount], [calculateCommitment] returns Keccak-256 of
    [secret_bytes ++ nullifier_bytes ++ assetId_bytes ++ amount_bytes], the
    first two being the decoded hex bytes and the last two the 32-byte
    big-endian encodings, which read back as the integers. *)
Theorem calculateCommitment_spec secret nullifier assetId amount secret_bytes nullifier_bytes :
  Spec.hex_decode secret = Some secret_bytes ->
  Spec.hex_decode nullifier = Some nullifier_bytes ->
  Spec.uint256 assetId -> Spec.uint256 amount ->
  calculateCommitment secret nullifier assetId amount
  = Normal (keccak256 (secret_bytes ++ nullifier_bytes
                       ++ Spec.be32 assetId ++ Spec.be32 amount))
  /\ (length (Spec.be32 assetId) = 32%nat /\ Spec.be_value (Spec.be32 assetId) = assetId)
  /\ (length (Spec.be32 amount) = 32%nat /\ Spec.be_value (Spec.be32 amount) = amount).
Proof.
  intros Hs Hn Ha Hm. split; [|auto using be32_length, be32_uint256].
  rewrite calculateCommitment_preimage. unfold preimage.
  now rewrite (hexToBytes_valid _ _ Hs), (hexToBytes_valid _ _ Hn).
Qed.

(** C2, as the code has it. [calculateCommitment] has no failing path: on
    every input, malformed hex included, it returns the hash of the bytes
    that [hexToBytes] reads, and [hexToBytes] reads a malformed string
    leniently: the odd last character of ["0x123"] is dropped and the pair
    ["zz"] counts as the byte 0. *)
Theorem calculateCommitment_never_fails secret nullifier assetId amount :
  calculateCommitment secret nullifier assetId amount
  = Normal (keccak256 (hexToBytes secret ++ hexToBytes nullifier
                       ++ Spec.be32 assetId ++ Spec.be32 amount))
  /\ Spec.hex_decode "0x123" = None /\ hexToBytes "0x123" = [18]
  /\ Spec.hex_decode "0xzz" = None /\ hexToBytes "0xzz" = [0].
Proof. split; [apply calculateCommitment_preimage | repeat split]. Qed.

Lemma hex_digits_strip h : Spec.hex_digits h -> Spec.strip_0x h = h.
Proof.
  destruct h as [|a [|b rest]]; [reflexivity | |].
  { intros _. each_character a; reflexivity. }
  cbn [Spec.hex_digits]. intros (_ & [d Hd] & _).
  each_character a; try reflexivity.
  each_character b; try reflexivity.
  discriminate Hd.
Qed.

(** A [0x] in front of a string that does not itself begin with [0x] is
    dropped before the bytes are read. *)
Lemma hexToBytes_0x h : Spec.strip_0x h = h -> hexToBytes ("0x" +:+ h) = hexToBytes h.
Proof.
  intros Hh. rewrite !hexToBytes_map, !strip_prefix_spec, Hh. reflexivity.
Qed.

(** C10. For strings [secret] and [nullifier] of hex digits,
    [calculateCommitment] returns the same commitment whether each string
    carries the [0x] prefix or not: the prefix is stripped before decoding,
    and ["0x01"] and ["01"] are the same byte. The lengths need not even be
    even. *)
Theorem calculateCommitment_prefix_insensitive secret nullifier assetId amount :
  Spec.hex_digits secret -> Spec.hex_digits nullifier ->
  hexToBytes ("0x" +:+ secret) = hexToBytes secret
  /\ hexToBytes ("0x" +:+ nullifier) = hexToBytes nullifier
  /\ calculateCommitment ("0x" +:+ secret) ("0x" +:+ nullifier) assetId amount
     = calculateCommitment secret nullifier assetId amount
  /\ calculateCommitment ("0x" +:+ secret) nullifier assetId amount
     = calculateCommitment secret nullifier assetId amount
  /\ calculateCommitment secret ("0x" +:+ nullifier) assetId amount
     = calculateCommitment secret nullifier assetId amount
  /\ hexToBytes "0x01" = [1] /\ hexToBytes "01" = [1].
Proof.
  intros Hs%hex_digits_strip%hexToBytes_0x Hn%hex_digits_strip%hexToBytes_0x.
  rewrite !calculateCommitment_preimage. unfold preimage.
  rewrite Hs, Hn. repeat split.
Qed.

(** Two preimages are equal only if their parts are, once the secrets (or
    the nullifiers) have the same length. *)
Lemma preimage_parts (s1 n1 s2 n2 : list Z) a1 m1 a2 m2 :
  length s1 = length s2 \/ length n1 = length n2 ->
  Spec.uint256 a1 -> Spec.uint256 m1 -> Spec.uint256 a2 -> Spec.uint256 m2 ->
  s1 ++ n1 ++ Spec.be32 a1 ++ Spec.be32 m1 = s2 ++ n2 ++ Spec.be32 a2 ++ Spec.be32 m2 ->
  s1 = s2 /\ n1 = n2 /\ a1 = a2 /\ m1 = m2.
Proof.
  intros Hlen Ha1 Hm1 Ha2 Hm2 E.
  assert (length s1 = length s2) as Hs.
  { destruct Hlen as [Hl|Hl]; [exact Hl|].
    apply (f_equal length) in E. rewrite !length_app, !be32_length in E. lia. }
  destruct (app_inj_1 _ _ _ _ Hs E) as [Es E1].
  assert (length (Spec.be32 a1 ++ Spec.be32 m1) = length (Spec.be32 a2 ++ Spec.be32 m2))
    as Hl by now rewrite !length_app, !be32_length.
  destruct (app_inj_2 _ _ _ _ Hl E1) as [En E2].
  destruct (app_inj_1 _ _ _ _ (eq_trans (be32_length a1) (eq_sym (be32_length a2))) E2)
    as [Ea Em].
  apply (f_equal Spec.be_value) in Ea, Em.
  rewrite !be32_uint256 in Ea, Em by assumption. auto.
Qed.

(** C3, as the code has it. With a hash that has no collision among byte
    strings, two valid inputs whose secrets (or whose nullifiers) decode to
    equally many bytes and that differ in a decoded byte of the secret or of
    the nullifier, or in [assetId] or [amount], have distinct
    commitments. *)
Theorem calculateCommitment_sensitive s1 n1 a1 m1 s2 n2 a2 m2 :
  collision_free ->
  Spec.valid_hex s1 -> Spec.valid_hex n1 -> Spec.uint256 a1 -> Spec.uint256 m1 ->
  Spec.valid_hex s2 -> Spec.valid_hex n2 -> Spec.uint256 a2 -> Spec.uint256 m2 ->
  length (hexToBytes s1) = length (hexToBytes s2)
  \/ length (hexToBytes n1) = length (hexToBytes n2) ->
  (hexToBytes s1, hexToBytes n1, a1, m1) <> (hexToBytes s2, hexToBytes n2, a2, m2) ->
  calculateCommitment s1 n1 a1 m1 <> calculateCommitment s2 n2 a2 m2.
Proof.
  intros Hfree _ _ Ha1 Hm1 _ _ Ha2 Hm2 Hlen Hne E.
  rewrite !calculateCommitment_preimage in E. injection E as E.
  apply Hfree in E; [|apply preimage_is_bytes..].
  apply preimage_parts in E as (Es & En & -> & ->); [|assumption..].
  apply Hne. now rewrite Es, En.
Qed.

End CommitmentFacts.

Lemma sample_collision_free : @collision_free sample_runtime.
Proof.
  intros x y _ _ E. cbn in E. unfold sample_keccak256 in E.
  now apply (inj pretty), (inj encode) in E.
Qed.

(** C2, refuted as stated: the malformed secret ["0xzz"] does not make
    [calculateCommitment] fail; it is read as the byte 0 and gives the
    commitment of the well-formed secret ["0x00"]. *)
Lemma calculateCommitment_malformed_accepted :
  ~ Spec.valid_hex "0xzz"
  /\ ~ (forall (R : Runtime) secret nullifier assetId amount,
         ~ Spec.valid_hex secret \/ ~ Spec.valid_hex nullifier ->
         exists e, @calculateCommitment R secret nullifier assetId amount = Throw e)
  /\ @calculateCommitment sample_runtime "0xzz" "0x02" 1 1
     = @calculateCommitment sample_runtime "0x00" "0x02" 1 1.
Proof.
  assert (~ Spec.valid_hex "0xzz") as Hbad by (intros [x Hx]; discriminate Hx).
  split; [exact Hbad|]. split.
  - intros Hclaim.
    destruct (Hclaim sample_runtime "0xzz" "0x02" 1 1 (or_introl Hbad)) as [e He].
    rewrite calculateCommitment_preimage in He. discriminate He.
  - rewrite !calculateCommitment_preimage. reflexivity.
Qed.

(** C3, refuted as stated: the valid inputs [("0x01", "0x0203", 1, 1)] and
    [("0x0102", "0x03", 1, 1)] differ, also in their decoded secrets and
    nullifiers, and have the same commitment whatever the hash is, because
    the two concatenations are the same bytes. *)
Lemma calculateCommitment_boundary_collision :
  (hexToBytes "0x01", hexToBytes "0x0203")
  <> (hexToBytes "0x0102", hexToBytes "0x03")
  /\ ~ (forall (R : Runtime), @collision_free R ->
         forall s1 n1 a1 m1 s2 n2 a2 m2,
           Spec.valid_hex s1 -> Spec.valid_hex n1 -> Spec.uint256 a1 -> Spec.uint256 m1 ->
           Spec.valid_hex s2 -> Spec.valid_hex n2 -> Spec.uint256 a2 -> Spec.uint256 m2 ->
           (s1, n1, a1, m1) <> (s2, n2, a2, m2) ->
           @calculateCommitment R s1 n1 a1 m1 <> @calculateCommitment R s2 n2 a2 m2).
Proof.
  split; [discriminate|].
  intros Hclaim.
  refine (Hclaim sample_runtime sample_collision_free
            "0x01" "0x0203" 1 1 "0x0102" "0x03" 1 1 _ _ _ _ _ _ _ _ _ _).
  1, 2, 5, 6: eexists; reflexivity.
  1, 2, 3, 4: split; [lia | reflexivity].
  - discriminate.
  - rewrite !calculateCommitment_preimage. reflexivity.
Qed.

Section ClientFacts.
Context `{Runtime}.

Lemma delivers_functional field answer v v' :
  delivers field answer v -> delivers field answer v' -> v = v'.
Proof.
  intros [r data success w Hok Hjson Hs Ht Hv] Hd. inversion Hd; subst. congruence.
Qed.

Lemma delivers_not_fails label field answer v msg :
  delivers field answer v -> fails label answer msg -> False.
Proof.
  intros [r data success w Hok Hjson Hs Ht Hv] Hf. inversion Hf; subst; congruence.
Qed.

Lemma get_property_after data key key' v :
  get_property data key = Normal v -> exists v', get_property data key' = Normal v'.
Proof. destruct data; cbn; intros E; try discriminate E; eauto. Qed.

(** Every answer either delivers the field or fails with a message. *)
Lemma delivers_or_fails label field answer :
  (exists v, delivers field answer v) \/ (exists msg, fails label answer msg).
Proof.
  destruct answer as [r|e]; [|right; eexists; constructor].
  destruct (ok r) eqn:Eok.
  - destruct (json r) as [data|e] eqn:Ej; [|right; eexists; eapply fails_json; eauto].
    destruct (get_property data "success") as [success|e] eqn:Es;
      [|right; eexists; eapply fails_nullish; eauto].
    destruct (ToBoolean success) eqn:Et.
    + destruct (get_property_after _ _ field _ Es) as [v Hv].
      left. exists v. econstructor; eauto.
    + destruct (get_property_after _ _ "error" _ Es) as [err Herr].
      right. destruct (ToString err) as [rendered|e] eqn:Er; eexists.
      * eapply fails_api; eauto.
      * eapply fails_rendering; eauto.
  - right. destruct (text r) as [errorText|e] eqn:Etxt; eexists.
    + eapply fails_status; eauto.
    + eapply fails_text; eauto.
Qed.

Lemma run_bind {A B : Type} (p : prog A) (f : A -> prog B) net t :
  run (bind p f) net t
  = match run p net t with
    | (trace, Normal a) =>
        let '(trace', result) := run (f a) net (t + length (requests trace)) in
        (trace ++ trace', result)
    | (trace, Throw e) => (trace, Throw e)
    end.
Proof.
  revert t. induction p as [a|e|req k IH|lvl args k IH]; intros t; cbn [bind run].
  - cbn. rewrite Nat.add_0_r. now destruct (run (f a) net t).
  - reflexivity.
  - rewrite IH. destruct (run (k (net t req)) net (S t)) as [trace [a|e]]; [|reflexivity].
    cbn [requests length Nat.add]. rewrite Nat.add_succ_r.
    now destruct (run (f a) net (S (t + length (requests trace)))).
  - rewrite IH. destruct (run k net t) as [trace [a|e]]; [|reflexivity].
    cbn [requests]. now destruct (run (f a) net (t + length (requests trace))).
Qed.

Lemma run_try_catch {A : Type} (p : prog A) (handler : thrown -> prog A) net t :
  run (try_catch p handler) net t
  = match run p net t with
    | (trace, Normal a) => (trace, Normal a)
    | (trace, Throw e) =>
        let '(trace', result) := run (handler e) net (t + length (requests trace)) in
        (trace ++ trace', result)
    end.
Proof.
  revert t. induction p as [a|e|req k IH|lvl args k IH]; intros t; cbn [try_catch run].
  - reflexivity.
  - cbn. rewrite Nat.add_0_r. now destruct (run (handler e) net t).
  - rewrite IH. destruct (run (k (net t req)) net (S t)) as [trace [a|e]]; [reflexivity|].
    cbn [requests length Nat.add]. rewrite Nat.add_succ_r.
    now destruct (run (handler e) net (S (t + length (requests trace)))).
  - rewrite IH. destruct (run k net t) as [trace [a|e]]; [reflexivity|].
    cbn [requests]. now destruct (run (handler e) net (t + length (requests trace))).
Qed.

Lemma requests_app (tr1 tr2 : list event) :
  requests (tr1 ++ tr2) = requests tr1 ++ requests tr2.
Proof.
  induction tr1 as [|[req answer|lvl args] tr1 IH]; cbn; [reflexivity| |assumption].
  now rewrite IH.
Qed.

Arguments Json.stringify_commitment : simpl never.

(** Runs a concrete program as far as the hypotheses on the answer say. *)
Ltac run_exchange :=
  repeat (cbn; match goal with E : ?x = _ |- context [?x] => rewrite E end); cbn.

Ltac settle_exchange :=
  run_exchange; eexists; split; cycle 1;
  [ first [ left; eexists; split; [econstructor; eassumption | reflexivity]
          | right; eexists; split; [econstructor; eassumption | reflexivity]
          | right; eexists; split; [eapply fails_api; eassumption | reflexivity] ]
  | reflexivity ].

Lemma getMerkleProof_run commitment net t :
  exists trace,
    requests trace = [proof_request commitment]
    /\ ((exists v, delivers "merkleProof" (net t (proof_request commitment)) v
                   /\ run (getMerkleProof commitment) net t = (trace, Normal v))
        \/ (exists msg, fails "Failed to get Merkle proof: " (net t (proof_request commitment)) msg
                        /\ run (getMerkleProof commitment) net t
                           = (trace, Throw (new_Error ("Could not retrieve Merkle proof: " +:+ msg))))).
Proof.
  unfold getMerkleProof, proof_request.
  match goal with |- context [net t ?req] => remember (net t req) as answer eqn:Ea end.
  symmetry in Ea.
  destruct (delivers_or_fails "Failed to get Merkle proof: " "merkleProof" answer)
    as [[v Hd]|[msg Hf]]; [destruct Hd | destruct Hf]; settle_exchange.
Qed.

Lemma getCurrentRoot_run net t :
  exists trace,
    requests trace = [root_request]
    /\ ((exists v, delivers "root" (net t root_request) v
                   /\ run getCurrentRoot net t = (trace, Normal v))
        \/ (exists msg, fails "Failed to get current root: " (net t root_request) msg
                        /\ run getCurrentRoot net t
                           = (trace, Throw (new_Error ("Could not retrieve current root: " +:+ msg))))).
Proof.
  unfold getCurrentRoot, root_request.
  match goal with |- context [net t ?req] => remember (net t req) as answer eqn:Ea end.
  symmetry in Ea.
  destruct (delivers_or_fails "Failed to get current root: " "root" answer)
    as [[v Hd]|[msg Hf]]; [destruct Hd | destruct Hf]; settle_exchange.
Qed.

Lemma checkCommitmentExists_run commitment net t :
  exists trace,
    requests trace = [check_request commitment]
    /\ ((exists found index,
           delivers "exists" (net t (check_request commitment)) found
           /\ delivers "index" (net t (check_request commitment)) index
           /\ run (checkCommitmentExists commitment) net t
              = (trace, Normal (VObj [("exists", found); ("index", index)])))
        \/ (exists msg, fails "Failed to check commitment: " (net t (check_request commitment)) msg
                        /\ run (checkCommitmentExists commitment) net t
                           = (trace, Throw (new_Error ("Could not check commitment: " +:+ msg))))).
Proof.
  unfold checkCommitmentExists, check_request.
  match goal with |- context [net t ?req] => remember (net t req) as answer eqn:Ea end.
  symmetry in Ea.
  destruct (delivers_or_fails "Failed to check commitment: " "exists" answer)
    as [[v Hd]|[msg Hf]]; [destruct Hd as [r data success v Hok Hj Hs Ht Hv] | destruct Hf].
  2-8: settle_exchange.
  destruct (get_property_after _ _ "index" _ Hs) as [index Hi].
  run_exchange. eexists. split; cycle 1.
  - left. exists v, index. split; [|split]; [econstructor; eassumption.. | reflexivity].
  - reflexivity.
Qed.

(** The three ways a run of [generateCommitmentAndProof] ends. *)
Lemma generateCommitmentAndProof_run secret nullifier assetId amount net t :
  let c := keccak256 (preimage secret nullifier assetId amount) in
  let logged := EvConsole Log [ArgStr "🌲 Client: Generated commitment:"; ArgStr c] in
  let outcome := run (generateCommitmentAndProof secret nullifier assetId amount) net t in
  (exists trace msg,
     fails "Failed to get Merkle proof: " (net t (proof_request c)) msg
     /\ requests trace = [proof_request c]
     /\ outcome = (logged :: trace,
                   Throw (new_Error ("Could not retrieve Merkle proof: " +:+ msg))))
  \/ (exists trace proof msg,
        delivers "merkleProof" (net t (proof_request c)) proof
        /\ fails "Failed to get current root: " (net (S t) root_request) msg
        /\ requests trace = [proof_request c; root_request]
        /\ outcome = (logged :: trace,
                      Throw (new_Error ("Could not retrieve current root: " +:+ msg))))
  \/ (exists trace proof current,
        delivers "merkleProof" (net t (proof_request c)) proof
        /\ delivers "root" (net (S t) root_request) current
        /\ requests trace = [proof_request c; root_request]
        /\ outcome = (logged :: trace,
                      Normal {| commitment := c; merkleProof := proof; root := current |})).
Proof.
  intros c logged outcome. subst outcome. unfold generateCommitmentAndProof.
  rewrite calculateCommitment_preimage. fold c. cbn [lift bind console_log run].
  rewrite run_bind.
  destruct (getMerkleProof_run c net t)
    as (trace_p & Hreq_p & [(proof & Hproof & ->)|(msg & Hfail & ->)]).
  - rewrite Hreq_p. cbn [length]. replace (t + 1)%nat with (S t) by lia.
    rewrite run_bind.
    destruct (getCurrentRoot_run net (S t))
      as (trace_r & Hreq_r & [(current & Hroot & ->)|(msg & Hfail & ->)]).
    + right. right. exists (trace_p ++ trace_r), proof, current.
      cbn. rewrite app_nil_r. repeat split; try assumption.
      now rewrite requests_app, Hreq_p, Hreq_r.
    + right. left. exists (trace_p ++ trace_r), proof, msg.
      repeat split; try assumption.
      now rewrite requests_app, Hreq_p, Hreq_r.
  - left. exists trace_p, msg. repeat split; assumption.
Qed.

(** C4. A run of [generateCommitmentAndProof] derives the commitment
    first, then sends the proof request made from that commitment, then
    the root request, in this order and nothing else; the value it returns
    holds that commitment, the proof delivered to the first request and the
    root delivered to the second request of this very run, which is settled
    after the first. *)
Theorem generateCommitmentAndProof_sequencing secret nullifier assetId amount net t :
  let c := keccak256 (preimage secret nullifier assetId amount) in
  let outcome := run (generateCommitmentAndProof secret nullifier assetId amount) net t in
  calculateCommitment secret nullifier assetId amount = Normal c
  /\ head (fst outcome)
     = Some (EvConsole Log [ArgStr "🌲 Client: Generated commitment:"; ArgStr c])
  /\ (requests (fst outcome) = [proof_request c]
      \/ requests (fst outcome) = [proof_request c; root_request])
  /\ (forall w,
        snd outcome = Normal w
        <-> commitment w = c
            /\ delivers "merkleProof" (net t (proof_request c)) (merkleProof w)
            /\ delivers "root" (net (S t) root_request) (root w))
  /\ (forall w,
        snd outcome = Normal w ->
        requests (fst outcome) = [proof_request c; root_request]).
Proof.
  intros c outcome. split; [apply calculateCommitment_preimage|].
  destruct (generateCommitmentAndProof_run secret nullifier assetId amount net t)
    as [(trace & msg & Hf & Hreq & E)
       |[(trace & proof & msg & Hp & Hf & Hreq & E)
        |(trace & proof & current & Hp & Hr & Hreq & E)]];
    fold c in Hf || fold c in Hp; fold c in Hreq; fold c outcome in E; rewrite E;
    cbn [fst snd head requests]; (split; [reflexivity|]); (split; [auto|]).
  - split; [|discriminate]. intros w. split; [discriminate|].
    intros (_ & Hp & _). destruct (delivers_not_fails _ _ _ _ _ Hp Hf).
  - split; [|discriminate]. intros w. split; [discriminate|].
    intros (_ & _ & Hr). destruct (delivers_not_fails _ _ _ _ _ Hr Hf).
  - split; [|auto]. intros w. split.
    + intros [= <-]. cbn. auto.
    + intros (Hc & Hp' & Hr'). destruct w as [wc wp wr]. cbn in Hc, Hp', Hr'.
      now rewrite Hc, (delivers_functional _ _ _ _ Hp Hp'),
                  (delivers_functional _ _ _ _ Hr Hr').
Qed.

(** C5. When the proof fetch fails, by a network failure, a response that
    is not ok, a body whose [success] is falsy or a body that cannot be
    read, [generateCommitmentAndProof] throws the error of
    [getMerkleProof], whose message is the original one behind
    ["Could not retrieve Merkle proof: "]; it returns no value and does
    not go on to ask for the root. *)
Theorem generateCommitmentAndProof_proof_failure secret nullifier assetId amount net t msg :
  let c := keccak256 (preimage secret nullifier assetId amount) in
  let outcome := run (generateCommitmentAndProof secret nullifier assetId amount) net t in
  fails "Failed to get Merkle proof: " (net t (proof_request c)) msg ->
  snd outcome = Throw (new_Error ("Could not retrieve Merkle proof: " +:+ msg))
  /\ (forall w, snd outcome <> Normal w)
  /\ requests (fst outcome) = [proof_request c].
Proof.
  intros c outcome Hfail.
  destruct (generateCommitmentAndProof_run secret nullifier assetId amount net t)
    as [(trace & msg' & Hf & Hreq & E)
       |[(trace & proof & msg' & Hp & _ & _ & _)
        |(trace & proof & current & Hp & _ & _ & _)]];
    fold c in Hf || fold c in Hp;
    try (destruct (delivers_not_fails _ _ _ _ _ Hp Hfail)).
  fold c in Hreq. fold c outcome in E. rewrite E. cbn [fst snd requests].
  assert (msg' = msg) as ->.
  { clear - Hf Hfail. destruct Hf; inversion Hfail; subst; congruence. }
  repeat split; [discriminate | assumption].
Qed.

Lemma getMerkleProof_result commitment net t v :
  snd (run (getMerkleProof commitment) net t) = Normal v
  <-> delivers "merkleProof" (net t (proof_request commitment)) v.
Proof.
  destruct (getMerkleProof_run commitment net t)
    as (trace & _ & [(v' & Hd & ->)|(msg & Hf & ->)]); cbn [snd]; split.
  - now intros [= <-].
  - intros Hd'. now rewrite (delivers_functional _ _ _ _ Hd Hd').
  - discriminate.
  - intros Hd. destruct (delivers_not_fails _ _ _ _ _ Hd Hf).
Qed.

(** C6, as the code has it. A successful [getMerkleProof] returns the
    [merkleProof] of the response exactly as the service sent it: its
    [siblings] and [pathIndices] have the same length if and only if those
    of the response have. *)
Theorem getMerkleProof_returns_what_it_receives commitment net t v :
  (snd (run (getMerkleProof commitment) net t) = Normal v
   <-> delivers "merkleProof" (net t (proof_request commitment)) v)
  /\ (snd (run (getMerkleProof commitment) net t) = Normal v ->
      (lengths_agree v
       <-> exists sent, delivers "merkleProof" (net t (proof_request commitment)) sent
                        /\ lengths_agree sent)).
Proof.
  split; [apply getMerkleProof_result|].
  intros Hd%getMerkleProof_result. split.
  - intros Hl. now exists v.
  - intros (sent & Hs & Hl). now rewrite (delivers_functional _ _ _ _ Hd Hs).
Qed.

Lemma service_failure_fails answer msg :
  service_failure answer msg -> fails "Failed to get Merkle proof: " answer msg.
Proof. intros [e|r errorText Hok Htext]; econstructor; eassumption. Qed.

Lemma commitment_not_found_fails answer msg :
  commitment_not_found answer msg -> fails "Failed to get Merkle proof: " answer msg.
Proof.
  intros [r fields error Hok Hjson Hsuccess Herror].
  eapply fails_api; try eassumption; cbn.
  - now rewrite Hsuccess.
  - reflexivity.
  - now rewrite Herror.
  - apply ToString_VStr.
Qed.

Lemma getMerkleProof_failure commitment net t msg :
  fails "Failed to get Merkle proof: " (net t (proof_request commitment)) msg ->
  snd (run (getMerkleProof commitment) net t)
  = Throw (new_Error ("Could not retrieve Merkle proof: " +:+ msg)).
Proof.
  intros Hfail.
  destruct (getMerkleProof_run commitment net t)
    as (trace & _ & [(v' & Hd & ->)|(msg' & Hf & ->)]); cbn [snd].
  - destruct (delivers_not_fails _ _ _ _ _ Hd Hfail).
  - assert (msg' = msg) as ->; [|reflexivity].
    clear - Hf Hfail. destruct Hf; inversion Hfail; subst; congruence.
Qed.

(** C7, as the code has it. Every failure of [getMerkleProof] surfaces as
    the same kind of error, a plain [Error] whose message begins with
    ["Could not retrieve Merkle proof: "] and goes on with the message of
    the failure. A response that is not ok and a commitment that is not
    found are told apart by that message only: it goes on with
    ["Failed to get Merkle proof: "] for the first and with ["API error: "]
    for the second, so the two always differ. *)
Theorem getMerkleProof_failures_differ_by_message commitment netF netN t msgF msgN :
  service_failure (netF t (proof_request commitment)) msgF ->
  commitment_not_found (netN t (proof_request commitment)) msgN ->
  let thrownF := new_Error ("Could not retrieve Merkle proof: " +:+ msgF) in
  let thrownN := new_Error ("Could not retrieve Merkle proof: " +:+ msgN) in
  snd (run (getMerkleProof commitment) netF t) = Throw thrownF
  /\ snd (run (getMerkleProof commitment) netN t) = Throw thrownN
  /\ error_kind thrownF = Some "Error" /\ error_kind thrownN = Some "Error"
  /\ (forall r, netF t (proof_request commitment) = Normal r -> thrownF <> thrownN).
Proof.
  intros HF HN thrownF thrownN.
  split; [apply getMerkleProof_failure, service_failure_fails, HF|].
  split; [apply getMerkleProof_failure, commitment_not_found_fails, HN|].
  split; [reflexivity|]. split; [reflexivity|].
  intros r Hr. subst thrownF thrownN.
  destruct HN as [r' fields error _ _ _ _].
  rewrite Hr in HF. inversion HF; subst. cbn. discriminate.
Qed.

(** C8. The requests of the core operations carry the secret and the
    nullifier through the commitment only. Two inputs with the same
    commitment give [generateCommitmentAndProof] the same run, request for
    request; each of its requests is the proof request, whose body is
    [JSON.stringify] of the object holding the commitment, or the root
    request, which has no body; [getMerkleProof] and
    [checkCommitmentExists] send one request made from the commitment they
    are given, and [calculateCommitment] sends none. *)
Theorem requests_carry_the_commitment_only s1 n1 a1 m1 s2 n2 a2 m2 net t :
  calculateCommitment s1 n1 a1 m1 = calculateCommitment s2 n2 a2 m2 ->
  let c := keccak256 (preimage s1 n1 a1 m1) in
  run (generateCommitmentAndProof s1 n1 a1 m1) net t
  = run (generateCommitmentAndProof s2 n2 a2 m2) net t
  /\ (forall req,
        In req (requests (fst (run (generateCommitmentAndProof s1 n1 a1 m1) net t))) ->
        req = proof_request c \/ req = root_request)
  /\ body (proof_request c) = Some (Json.stringify_commitment c)
  /\ body root_request = None
  /\ requests (fst (run (getMerkleProof c) net t)) = [proof_request c]
  /\ requests (fst (run (checkCommitmentExists c) net t)) = [check_request c]
  /\ body (check_request c) = Some (Json.stringify_commitment c)
  /\ fst (run (lift (calculateCommitment s1 n1 a1 m1)) net t) = [].
Proof.
  intros Hsame c. split; [unfold generateCommitmentAndProof; now rewrite Hsame|].
  split.
  { intros req.
    destruct (generateCommitmentAndProof_run s1 n1 a1 m1 net t)
      as [(trace & msg & _ & Hreq & E)
         |[(trace & proof & msg & _ & _ & Hreq & E)
          |(trace & proof & current & _ & _ & Hreq & E)]];
      rewrite E; cbn [fst requests]; rewrite Hreq; cbn [In]; intuition. }
  do 2 (split; [reflexivity|]).
  split; [destruct (getMerkleProof_run c net t) as (tr & Hreq & [(? & _ & ->)|(? & _ & ->)]);
          exact Hreq|].
  split; [destruct (checkCommitmentExists_run c net t)
            as (tr & Hreq & [(? & ? & _ & _ & ->)|(? & _ & ->)]); exact Hreq|].
  split; [reflexivity|].
  now rewrite calculateCommitment_preimage.
Qed.

(** C9. [calculateCommitment] is a pure function of its four arguments:
    it always returns a commitment, and calling it from an asynchronous
    function leaves no event and gives the same value whatever the network
    and the moment are. *)
Theorem calculateCommitment_pure secret nullifier assetId amount net1 t1 net2 t2 :
  (exists c, calculateCommitment secret nullifier assetId amount = Normal c
             /\ run (lift (calculateCommitment secret nullifier assetId amount)) net1 t1
                = ([], Normal c))
  /\ run (lift (calculateCommitment secret nullifier assetId amount)) net1 t1
     = run (lift (calculateCommitment secret nullifier assetId amount)) net2 t2.
Proof.
  rewrite calculateCommitment_preimage. split; [eexists; split; reflexivity | reflexivity].
Qed.

End ClientFacts.

(** ** The statements at concrete inputs *)

Lemma calculateCommitment_spec_witness :
  @calculateCommitment sample_runtime "0x01" "0x02" 1 1000000000000000000
  = Normal (sample_keccak256
              ([1] ++ [2] ++ Spec.be32 1 ++ Spec.be32 1000000000000000000))
  /\ (length (Spec.be32 1) = 32%nat /\ Spec.be_value (Spec.be32 1) = 1)
  /\ (length (Spec.be32 1000000000000000000) = 32%nat
      /\ Spec.be_value (Spec.be32 1000000000000000000) = 1000000000000000000).
Proof.
  apply (@calculateCommitment_spec sample_runtime
           "0x01" "0x02" 1 1000000000000000000 [1] [2]).
  - reflexivity.
  - reflexivity.
  - split; [lia | reflexivity].
  - split; [lia | reflexivity].
Defined.

Lemma calculateCommitment_prefix_insensitive_witness :
  @calculateCommitment sample_runtime "0x01" "0x02" 1 1000000000000000000
  = @calculateCommitment sample_runtime "01" "02" 1 1000000000000000000.
Proof.
  refine (proj1 (proj2 (proj2
    (@calculateCommitment_prefix_insensitive sample_runtime
       "01" "02" 1 1000000000000000000 _ _)))).
  - cbn. repeat split; eexists; reflexivity.
  - cbn. repeat split; eexists; reflexivity.
Defined.

Lemma calculateCommitment_sensitive_witness :
  @calculateCommitment sample_runtime "0x01" "0x02" 1 1000000000000000000
  <> @calculateCommitment sample_runtime "0x03" "0x02" 1 1000000000000000000.
Proof.
  apply (@calculateCommitment_sensitive sample_runtime
           "0x01" "0x02" 1 1000000000000000000 "0x03" "0x02" 1 1000000000000000000).
  - exact sample_collision_free.
  - eexists; reflexivity.
  - eexists; reflexivity.
  - split; [lia | reflexivity].
  - split; [lia | reflexivity].
  - eexists; reflexivity.
  - eexists; reflexivity.
  - split; [lia | reflexivity].
  - split; [lia | reflexivity].
  - left; reflexivity.
  - discriminate.
Defined.

Lemma generateCommitmentAndProof_proof_failure_witness :
  let net := always (text_response false "Internal Server Error") in
  let outcome :=
    @run sample_runtime _
      (@generateCommitmentAndProof sample_runtime "0x01" "0x02" 1 1000000000000000000)
      net 0 in
  snd outcome
  = Throw (new_Error
             "Could not retrieve Merkle proof: Failed to get Merkle proof: Internal Server Error")
  /\ (forall w, snd outcome <> Normal w)
  /\ requests (fst outcome)
     = [proof_request
       (sample_keccak256 (preimage "0x01" "0x02" 1 1000000000000000000))].
Proof.
  apply (@generateCommitmentAndProof_proof_failure sample_runtime
           "0x01" "0x02" 1 1000000000000000000
           (always (text_response false "Internal Server Error")) 0
           "Failed to get Merkle proof: Internal Server Error").
  apply (@fails_status sample_runtime "Failed to get Merkle proof: "
           _ "Internal Server Error"); reflexivity.
Defined.

Lemma getMerkleProof_failures_differ_by_message_witness :
  let netF := always (text_response false "Internal Server Error") in
  let netN := always (json_response true (failure_body "Commitment not found")) in
  snd (@run sample_runtime _ (@getMerkleProof sample_runtime "0xc0") netF 0)
  = Throw (new_Error
             "Could not retrieve Merkle proof: Failed to get Merkle proof: Internal Server Error")
  /\ snd (@run sample_runtime _ (@getMerkleProof sample_runtime "0xc0") netN 0)
     = Throw (new_Error "Could not retrieve Merkle proof: API error: Commitment not found").
Proof.
  intros netF netN.
  assert (@service_failure sample_runtime (netF 0%nat (proof_request "0xc0"))
            "Failed to get Merkle proof: Internal Server Error") as HF
    by (apply (@service_status sample_runtime _ "Internal Server Error"); reflexivity).
  assert (@commitment_not_found sample_runtime (netN 0%nat (proof_request "0xc0"))
            "API error: Commitment not found") as HN
    by (eapply (@not_found_body sample_runtime _ _ "Commitment not found"); reflexivity).
  destruct (@getMerkleProof_failures_differ_by_message sample_runtime
              "0xc0" netF netN 0 _ _ HF HN) as (EF & EN & _).
  split; [exact EF | exact EN].
Defined.

Lemma requests_carry_the_commitment_only_witness :
  @run sample_runtime _
    (@generateCommitmentAndProof sample_runtime "0x01" "0x02" 1 1000000000000000000)
    moving_root_network 0
  = @run sample_runtime _
      (@generateCommitmentAndProof sample_runtime "01" "02" 1 1000000000000000000)
      moving_root_network 0.
Proof.
  refine (proj1 (@requests_carry_the_commitment_only sample_runtime
                   "0x01" "0x02" 1 1000000000000000000
                   "01" "02" 1 1000000000000000000 moving_root_network 0 _)).
  reflexivity.
Defined.

(** The root returned is the one of the moment of the root request: in a
    run that starts when the root is ["0xaa"] and in which it has become
    ["0xbb"] when the proof has arrived, ["0xbb"] is returned. *)
Example generateCommitmentAndProof_moving_root :
  snd (@run sample_runtime _
         (@generateCommitmentAndProof sample_runtime "0x01" "0x02" 1 1000000000000000000)
         moving_root_network 0)
  = Normal (@Build_withdrawal sample_runtime
              (sample_keccak256 (preimage "0x01" "0x02" 1 1000000000000000000))
              lopsided_proof (VStr "0xbb")).
Proof. reflexivity. Qed.

(** C6, refuted as stated: the service answers with a proof of one sibling
    and no path index, and [getMerkleProof] returns it. *)
Lemma getMerkleProof_lopsided_proof :
  snd (@run sample_runtime _ (@getMerkleProof sample_runtime "0xc0")
         (always (json_response true (proof_body lopsided_proof))) 0)
  = Normal lopsided_proof
  /\ ~ @lengths_agree sample_runtime lopsided_proof
  /\ ~ (forall (R : Runtime) commitment net t v,
         snd (@run R _ (@getMerkleProof R commitment) net t) = Normal v ->
         @lengths_agree R v).
Proof.
  assert (~ @lengths_agree sample_runtime lopsided_proof) as Hbad.
  { intros (siblings & pathIndices & E1 & E2 & El).
    cbn in E1, E2. injection E1 as <-. injection E2 as <-. discriminate El. }
  split; [reflexivity|]. split; [exact Hbad|].
  intros Hclaim. apply Hbad.
  apply (Hclaim sample_runtime "0xc0"
           (always (json_response true (proof_body lopsided_proof))) 0%nat).
  reflexivity.
Qed.

(** C7, refuted as stated: a response that is not ok and a response that
    says the commitment is not found both surface as an [Error], the same
    kind; and a network failure whose message reads like the body of the
    second surfaces as the very same error, kind and message. *)
Lemma getMerkleProof_one_error_kind :
  ~ (forall (R : Runtime) commitment (netF netN : @network R) t msgF msgN eF eN,
       @service_failure R (netF t (proof_request commitment)) msgF ->
       @commitment_not_found R (netN t (proof_request commitment)) msgN ->
       snd (run (getMerkleProof commitment) netF t) = Throw eF ->
       snd (run (getMerkleProof commitment) netN t) = Throw eN ->
       error_kind eF <> error_kind eN)
  /\ snd (@run sample_runtime _ (@getMerkleProof sample_runtime "0xc0")
            (always (Throw (ErrorObject "TypeError" "API error: Commitment not found"))) 0)
     = snd (@run sample_runtime _ (@getMerkleProof sample_runtime "0xc0")
              (always (json_response true (failure_body "Commitment not found"))) 0).
Proof.
  split; [|reflexivity].
  intros Hclaim.
  refine (Hclaim sample_runtime "0xc0"
            (always (text_response false "Internal Server Error"))
            (always (json_response true (failure_body "Commitment not found")))
            0%nat _ _ _ _ _ _ eq_refl eq_refl _).
  - apply (@service_status sample_runtime _ "Internal Server Error"); reflexivity.
  - eapply (@not_found_body sample_runtime _ _ "Commitment not found"); reflexivity.
  - reflexivity.
Qed.

(** ** The decoder on its edges *)

Section DecoderEdges.
Context `{Runtime}.
Import JsString.

Lemma length_snoc s c : String.length (s +:+ String c EmptyString) = S (String.length s).
Proof. induction s as [|a s IH]; [reflexivity|]. simpl. now f_equal. Qed.

Lemma substring_within n m s1 s2 :
  (n + m <= String.length s1)%nat ->
  String.substring n m (s1 +:+ s2) = String.substring n m s1.
Proof.
  revert n m. induction s1 as [|a s1 IH]; intros n m Hle; cbn in Hle.
  - assert (n = 0 /\ m = 0)%nat as [-> ->] by lia. now destruct s2.
  - destruct n as [|n]; simpl.
    + destruct m as [|m]; [reflexivity|]. f_equal. apply IH. lia.
    + apply IH. lia.
Qed.

Lemma strip_prefix_length hex :
  String.length (strip_prefix hex)
  = (String.length hex - (if startsWith hex "0x" then 2 else 0))%nat.
Proof.
  unfold strip_prefix. destruct (startsWith hex "0x") eqn:E; [|lia].
  rewrite startsWith_0x in E.
  destruct hex as [|a [|b rest]];
    [discriminate E | each_character a; discriminate E |].
  rewrite substring_from_2. cbn [String.length]. lia.
Qed.

(** X1. [hexToBytes] returns one byte for every two characters that
    follow the optional [0x], rounding down, each of them in [0, 256); so it
    returns no byte at all exactly when fewer than two characters follow
    the prefix. *)
Theorem hexToBytes_shape hex :
  let digits := (String.length hex - (if startsWith hex "0x" then 2 else 0))%nat in
  length (hexToBytes hex) = (digits / 2)%nat
  /\ Forall (fun b => 0 <= b < 256) (hexToBytes hex)
  /\ (hexToBytes hex = [] <-> (digits < 2)%nat).
Proof.
  intros digits.
  assert (length (hexToBytes hex) = (digits / 2)%nat) as Hlen.
  { rewrite hexToBytes_map, length_map, length_seq. subst digits.
    now rewrite strip_prefix_length. }
  split; [exact Hlen|]. split.
  - rewrite hexToBytes_map. apply Forall_map, Forall_forall.
    intros i _. apply ToUint8_range.
  - rewrite <- length_zero_iff_nil, Hlen. apply Nat.div_small_iff. lia.
Qed.

Lemma strip_prefix_snoc hex c :
  Nat.Even (String.length (strip_prefix hex)) ->
  strip_prefix (hex +:+ String c EmptyString) = strip_prefix hex +:+ String c EmptyString.
Proof.
  rewrite !strip_prefix_spec. destruct hex as [|a [|b rest]].
  - intros _. cbn. each_character c; reflexivity.
  - intros [k Hk]. exfalso.
    assert (Spec.strip_0x (String a EmptyString) = String a EmptyString) as E
      by (each_character a; reflexivity).
    rewrite E in Hk. cbn in Hk. lia.
  - intros _. cbn [String.append].
    each_character a; try reflexivity. each_character b; reflexivity.
Qed.

(** X2. A character left over after the last full pair is ignored: when
    an even number of characters follows the optional [0x], one more
    character, whatever it is, does not change the bytes. *)
Theorem hexToBytes_drops_odd_tail hex c :
  Nat.Even (String.length (strip_prefix hex)) ->
  hexToBytes (hex +:+ String c EmptyString) = hexToBytes hex.
Proof.
  intros Heven. rewrite !hexToBytes_map, (strip_prefix_snoc _ _ Heven). rewrite length_snoc.
  destruct Heven as [k Hk]. rewrite Hk.
  replace (S (2 * k) / 2)%nat with k
    by (apply (Nat.div_unique _ 2 k 1); lia).
  replace (2 * k / 2)%nat with k
    by (apply (Nat.div_unique _ 2 k 0); lia).
  apply map_ext_in. intros i Hi%in_seq. do 2 f_equal.
  unfold substring. rewrite !Nat.min_l, !Nat.max_r by lia.
  apply substring_within. lia.
Qed.

(** X3. Only a lower-case [0x] is a prefix. In front of a string that
    does not itself begin with [0x], an upper-case [0X] is read as a pair
    of digits that [parseInt] cannot read, the byte 0, so the result is
    one byte longer than with [0x]. *)
Theorem hexToBytes_upper_prefix h :
  Spec.strip_0x h = h ->
  hexToBytes ("0X" +:+ h) = 0 :: hexToBytes h
  /\ hexToBytes ("0X" +:+ h) <> hexToBytes ("0x" +:+ h).
Proof.
  intros Hh.
  assert (hexToBytes ("0X" +:+ h) = 0 :: hexToBytes h) as E.
  { rewrite !hexToBytes_map, !strip_prefix_spec, Hh.
    change (Spec.strip_0x ("0X" +:+ h)) with (String "0" (String "X" h)).
    cbn [String.length].
    replace (S (S (String.length h)) / 2)%nat with (S (String.length h / 2)).
    2:{ change (S (S (String.length h))) with (1 * 2 + String.length h)%nat.
        now rewrite Nat.div_add_l by lia. }
    cbn [seq map]. rewrite substring_pair_head. f_equal.
    rewrite <- seq_shift, map_map. apply map_ext. intros i.
    now rewrite substring_pair_tail. }
  split; [exact E|].
  rewrite E, (hexToBytes_0x _ Hh). intros Habs.
  apply (f_equal length) in Habs. cbn in Habs. lia.
Qed.

Lemma upper_hex_digit_value c : Spec.hex_digit (upper_hex_digit c) = Spec.hex_digit c.
Proof. each_character c; reflexivity. Qed.

Lemma upper_hex_digits_pairs s :
  Spec.decode_pairs (upper_hex_digits s) = Spec.decode_pairs s.
Proof.
  assert (forall n s, (String.length s <= n)%nat ->
            Spec.decode_pairs (upper_hex_digits s) = Spec.decode_pairs s) as Hn.
  { clear s. induction n as [|n IH]; intros s Hle.
    - destruct s; [reflexivity | cbn in Hle; lia].
    - destruct s as [|a [|b rest]]; [reflexivity | reflexivity |].
      cbn [upper_hex_digits Spec.decode_pairs].
      rewrite !upper_hex_digit_value, IH by (cbn in Hle; lia). reflexivity. }
  apply (Hn (String.length s)). lia.
Qed.

Lemma upper_hex_digits_strip s :
  Spec.strip_0x (upper_hex_digits s) = upper_hex_digits (Spec.strip_0x s).
Proof.
  destruct s as [|a [|b rest]]; [reflexivity | |].
  - each_character a; reflexivity.
  - cbn [upper_hex_digits]. each_character a; try reflexivity.
    each_character b; reflexivity.
Qed.

(** X4. The case of the digits does not matter: on a valid hex string,
    writing [a] to [f] in upper case changes neither the bytes nor the
    commitment. *)
Theorem hexToBytes_case_insensitive secret nullifier assetId amount :
  Spec.valid_hex secret -> Spec.valid_hex nullifier ->
  hexToBytes (upper_hex_digits secret) = hexToBytes secret
  /\ hexToBytes (upper_hex_digits nullifier) = hexToBytes nullifier
  /\ calculateCommitment (upper_hex_digits secret) (upper_hex_digits nullifier) assetId amount
     = calculateCommitment secret nullifier assetId amount.
Proof.
  assert (forall s, Spec.valid_hex s -> hexToBytes (upper_hex_digits s) = hexToBytes s) as Hcase.
  { intros s [bytes Hs]. rewrite (hexToBytes_valid _ _ Hs).
    apply hexToBytes_valid. unfold Spec.hex_decode in *.
    now rewrite upper_hex_digits_strip, upper_hex_digits_pairs. }
  intros Hs%Hcase Hn%Hcase. split; [exact Hs|]. split; [exact Hn|].
  rewrite !calculateCommitment_preimage. unfold preimage. now rewrite Hs, Hn.
Qed.

Lemma big_endian_mod width n :
  Spec.big_endian width (n mod 256 ^ Z.of_nat width) = Spec.big_endian width n.
Proof.
  revert n. induction width as [|width IH]; intros n; [reflexivity|].
  rewrite !big_endian_S, Nat2Z.inj_succ, Z.pow_succ_r by lia.
  assert (0 < 256 ^ Z.of_nat width) as Hpos by (apply Z.pow_pos_nonneg; lia).
  rewrite Z.rem_mul_r by lia.
  pose proof (Z.mod_pos_bound n 256 ltac:(lia)) as Hr.
  f_equal.
  - rewrite <- (IH (n / 256)). f_equal.
    rewrite (Z.mul_comm 256), Z.div_add by lia.
    rewrite (Z.div_small (n mod 256)) by lia. lia.
  - f_equal. rewrite (Z.mul_comm 256), Z.mod_add by lia. apply Z.mod_mod. lia.
Qed.

(** X5. [assetId] and [amount] count modulo 2^256: a value outside the
    unsigned 256-bit range is not rejected, it gives the commitment of its
    residue, so [assetId + 2^256] collides with [assetId], and [-1] with
    [2^256 - 1]. *)
Theorem calculateCommitment_wraps secret nullifier assetId amount :
  calculateCommitment secret nullifier assetId amount
  = calculateCommitment secret nullifier (assetId mod 2 ^ 256) (amount mod 2 ^ 256)
  /\ calculateCommitment secret nullifier (assetId + 2 ^ 256) amount
     = calculateCommitment secret nullifier assetId amount
  /\ calculateCommitment secret nullifier assetId (-1)
     = calculateCommitment secret nullifier assetId (2 ^ 256 - 1).
Proof.
  assert (forall n, Spec.be32 (n mod 2 ^ 256) = Spec.be32 n) as Hmod
    by (intros n; apply (big_endian_mod 32 n)).
  rewrite !calculateCommitment_preimage. unfold preimage.
  split; [now rewrite !Hmod|]. split.
  - do 4 f_equal. rewrite <- (Hmod (assetId + 2 ^ 256)), <- (Hmod assetId).
    now rewrite <- (Z_mod_plus_full assetId 1 (2 ^ 256)), Z.mul_1_l.
  - do 5 f_equal.
Qed.

(** X16. Pairs that are not two hex digits are read, not refused, and
    collide with valid ones. With a hex digit of value [d]: a space or a
    plus sign before it gives the byte [d], a minus sign before it gives
    [-d] modulo 256, and any character that is no hex digit after it gives
    [d] again, unless the pair is the prefix [0x] itself. *)
Theorem hexToBytes_lenient_pairs c d :
  Spec.hex_digit c = Some d ->
  hexToBytes (String " " (String c EmptyString)) = [d]
  /\ hexToBytes (String "+" (String c EmptyString)) = [d]
  /\ hexToBytes (String "-" (String c EmptyString)) = [(- d) mod 256]
  /\ (forall z, Spec.hex_digit z = None ->
                String c (String z EmptyString) <> "0x" ->
                hexToBytes (String c (String z EmptyString)) = [d]).
Proof.
  intros Hc. split; [|split; [|split]].
  - each_character c; vm_compute in Hc; try discriminate Hc;
      injection Hc as <-; reflexivity.
  - each_character c; vm_compute in Hc; try discriminate Hc;
      injection Hc as <-; reflexivity.
  - each_character c; vm_compute in Hc; try discriminate Hc;
      injection Hc as <-; reflexivity.
  - intros z Hz Hne.
    each_character c; vm_compute in Hc; try discriminate Hc; injection Hc as <-;
      (each_character z; vm_compute in Hz; try discriminate Hz;
       first [reflexivity | exfalso; apply Hne; reflexivity]).
Qed.

End DecoderEdges.

(** ** The request body *)

Section RequestBody.

Lemma append_assoc (s1 s2 s3 : string) : (s1 +:+ s2) +:+ s3 = s1 +:+ (s2 +:+ s3).
Proof.
  induction s1 as [|a s1 IH]; [reflexivity|].
  change (String a ((s1 +:+ s2) +:+ s3) = String a (s1 +:+ (s2 +:+ s3))).
  now f_equal.
Qed.

Lemma append_cons a (s1 s2 : string) : String a s1 +:+ s2 = String a (s1 +:+ s2).
Proof. reflexivity. Qed.

Lemma append_nil_l (s : string) : EmptyString +:+ s = s.
Proof. reflexivity. Qed.

Lemma unescape_head_escape_char c rest :
  unescape_head (Json.escape_char c +:+ rest) = Some (c, rest).
Proof. each_character c; reflexivity. Qed.

Lemma escape_closed_inj s1 s2 t1 t2 :
  Json.escape s1 +:+ Json.dquote +:+ t1 = Json.escape s2 +:+ Json.dquote +:+ t2 ->
  s1 = s2 /\ t1 = t2.
Proof.
  revert s2. induction s1 as [|c1 s1 IH]; intros [|c2 s2] E.
  - cbn [Json.escape] in E. unfold Json.dquote in E.
    rewrite !append_nil_l, !append_cons, !append_nil_l in E. now injection E as ->.
  - apply (f_equal unescape_head) in E. cbn [Json.escape] in E.
    rewrite append_assoc, unescape_head_escape_char in E. discriminate E.
  - apply (f_equal unescape_head) in E. cbn [Json.escape] in E.
    rewrite append_assoc, unescape_head_escape_char in E. discriminate E.
  - apply (f_equal unescape_head) in E. cbn [Json.escape] in E.
    rewrite !append_assoc, !unescape_head_escape_char in E.
    injection E as -> E. now destruct (IH _ E) as [-> ->].
Qed.

(** X6. The body of a request determines the commitment it was made
    from: [JSON.stringify] of two objects holding distinct commitments
    gives distinct bodies, so the proof requests and the existence requests
    of distinct commitments are distinct. *)
Theorem stringify_commitment_injective c1 c2 :
  (Json.stringify_commitment c1 = Json.stringify_commitment c2 <-> c1 = c2)
  /\ (proof_request c1 = proof_request c2 <-> c1 = c2)
  /\ (check_request c1 = check_request c2 <-> c1 = c2).
Proof.
  assert (Json.stringify_commitment c1 = Json.stringify_commitment c2 -> c1 = c2) as Hinj.
  { unfold Json.stringify_commitment, Json.quote. intros E.
    rewrite !(append_assoc Json.dquote), !(append_assoc (Json.escape _)) in E.
    unfold Json.dquote at 1 2 3 5 6 7 in E. cbn [Json.escape] in E.
    repeat (progress rewrite ?append_cons, ?append_nil_l in E).
    injection E as E.
    now destruct (escape_closed_inj _ _ _ _ E). }
  split; [|split]; (split; [|now intros ->]).
  - exact Hinj.
  - intros E%(f_equal body). apply Hinj. unfold proof_request in E. cbn [body] in E. congruence.
  - intros E%(f_equal body). apply Hinj. unfold check_request in E. cbn [body] in E. congruence.
Qed.

Lemma escape_hex_digits h : Spec.hex_digits h -> Json.escape h = h.
Proof.
  induction h as [|c h IH]; [reflexivity|].
  cbn [Spec.hex_digits Json.escape]. intros [[d Hd] Hh].
  rewrite (IH Hh).
  each_character c; vm_compute in Hd; try discriminate Hd; reflexivity.
Qed.

(** X7. A commitment written as [0x] and hex digits, as [keccak256]
    returns it, needs no escape: the body of the request is the text
    [{"commitment":"0x..."}] with the commitment as it is. *)
Theorem stringify_commitment_of_hex h :
  Spec.hex_digits h ->
  Json.stringify_commitment ("0x" +:+ h)
  = "{" +:+ Json.dquote +:+ "commitment" +:+ Json.dquote +:+ ":"
    +:+ Json.dquote +:+ "0x" +:+ h +:+ Json.dquote +:+ "}".
Proof.
  intros Hh. unfold Json.stringify_commitment, Json.quote.
  change (Json.escape ("0x" +:+ h)) with ("0x" +:+ Json.escape h).
  rewrite (escape_hex_digits _ Hh). simpl. now rewrite !append_assoc.
Qed.

End RequestBody.

(** ** The other exchanges *)

Section OtherExchanges.
Context `{Runtime}.

(** Runs a program along the equations that describe the answer. *)
Ltac follow_answer :=
  repeat (cbn; match goal with E : ?x = _ |- context [?x] => rewrite E end); cbn.

Lemma fails_functional label answer msg msg' :
  fails label answer msg -> fails label answer msg' -> msg = msg'.
Proof. intros Hf Hf'. destruct Hf; inversion Hf'; subst; congruence. Qed.

Lemma append_inv_head (prefix s1 s2 : string) :
  prefix +:+ s1 = prefix +:+ s2 -> s1 = s2.
Proof.
  induction prefix as [|a prefix IH]; [now intros E|].
  intros [= E]. now apply IH.
Qed.

Lemma Throw_new_Error_inj {A : Type} (prefix s1 s2 : string) :
  @Throw A (new_Error (prefix +:+ s1)) = Throw (new_Error (prefix +:+ s2)) -> s1 = s2.
Proof. intros [= E]. now apply append_inv_head in E. Qed.

(** X8. [getCurrentRoot] sends one request, the GET of
    [/api/getContractRoot] without a body, and never a second one. It
    returns a value exactly when the answer is an ok response whose parsed
    body has a truthy [success], and the value is the [root] of that body;
    on any failure it throws an [Error] whose message is the message of
    the failure behind ["Could not retrieve current root: "]. *)
Theorem getCurrentRoot_outcome net t :
  let outcome := run getCurrentRoot net t in
  requests (fst outcome) = [root_request]
  /\ (forall v, snd outcome = Normal v <-> delivers "root" (net t root_request) v)
  /\ (forall msg,
        fails "Failed to get current root: " (net t root_request) msg
        <-> snd outcome = Throw (new_Error ("Could not retrieve current root: " +:+ msg))).
Proof.
  intros outcome. subst outcome.
  destruct (getCurrentRoot_run net t)
    as (trace & Hreq & [(v & Hd & ->)|(msg & Hf & ->)]); cbn [fst snd];
    (split; [exact Hreq|]); split.
  - intros v'. split; [now intros [= <-]|].
    intros Hd'. now rewrite (delivers_functional _ _ _ _ Hd Hd').
  - intros msg. split; [|discriminate].
    intros Hf. destruct (delivers_not_fails _ _ _ _ _ Hd Hf).
  - intros v. split; [discriminate|].
    intros Hd. destruct (delivers_not_fails _ _ _ _ _ Hd Hf).
  - intros msg'. split.
    + intros Hf'. now rewrite (fails_functional _ _ _ _ Hf Hf').
    + intros E. apply Throw_new_Error_inj in E. now subst.
Qed.

(** X9. [checkCommitmentExists] sends one request, the POST of
    [/api/checkCommitment] whose body holds the commitment. It returns
    exactly when the answer is an ok response whose parsed body has a truthy
    [success], and then returns an object of two properties, [exists] and
    [index], holding what the body has under these names, whatever that
    is: a body that says [exists: false] is a result, not an error. On any
    failure it throws an [Error] whose message is the message of the
    failure behind ["Could not check commitment: "]. *)
Theorem checkCommitmentExists_outcome commitment net t :
  let answer := net t (check_request commitment) in
  let outcome := run (checkCommitmentExists commitment) net t in
  requests (fst outcome) = [check_request commitment]
  /\ (forall v,
        snd outcome = Normal v
        <-> exists found index,
              delivers "exists" answer found /\ delivers "index" answer index
              /\ v = VObj [("exists", found); ("index", index)])
  /\ (forall msg,
        fails "Failed to check commitment: " answer msg
        <-> snd outcome = Throw (new_Error ("Could not check commitment: " +:+ msg))).
Proof.
  intros answer outcome. subst answer outcome.
  destruct (checkCommitmentExists_run commitment net t)
    as (trace & Hreq & [(found & index & Hd & Hi & ->)|(msg & Hf & ->)]);
    cbn [fst snd]; (split; [exact Hreq|]); split.
  - intros v. split.
    + intros [= <-]. now exists found, index.
    + intros (found' & index' & Hd' & Hi' & ->).
      now rewrite (delivers_functional _ _ _ _ Hd Hd'),
                  (delivers_functional _ _ _ _ Hi Hi').
  - intros msg. split; [|discriminate].
    intros Hf. destruct (delivers_not_fails _ _ _ _ _ Hd Hf).
  - intros v. split; [discriminate|].
    intros (found & index & Hd & _). destruct (delivers_not_fails _ _ _ _ _ Hd Hf).
  - intros msg'. split.
    + intros Hf'. now rewrite (fails_functional _ _ _ _ Hf Hf').
    + intros E. apply Throw_new_Error_inj in E. now subst.
Qed.

Lemma lookup_field_missing (fields : list (string * jsval number)) key :
  ~ In key (map fst fields) -> lookup_field fields key = VUndefined.
Proof.
  induction fields as [|[k v] fields IH]; [reflexivity|].
  cbn [map fst In lookup_field]. intros Hnot.
  destruct (String.eqb_spec k key) as [->|_]; [tauto|]. apply IH. tauto.
Qed.

Lemma delivers_object field r fields :
  ok r = true -> json r = Normal (VObj fields) ->
  ToBoolean (lookup_field fields "success") = true ->
  delivers field (Normal r) (lookup_field fields field).
Proof. intros Hok Hjson Hs. econstructor; eauto; reflexivity. Qed.

(** X10. [generateCommitmentAndProof] checks neither that the proof and
    the root are there nor what they are: when both answers are ok
    responses whose bodies are objects with a truthy [success], it returns
    the commitment with whatever the first body has under [merkleProof]
    and the second under [root], and [undefined] for a key that is
    missing. *)
Theorem generateCommitmentAndProof_reads_fields
    secret nullifier assetId amount net t r1 fields1 r2 fields2 :
  let c := keccak256 (preimage secret nullifier assetId amount) in
  let outcome := run (generateCommitmentAndProof secret nullifier assetId amount) net t in
  net t (proof_request c) = Normal r1 -> ok r1 = true ->
  json r1 = Normal (VObj fields1) ->
  ToBoolean (lookup_field fields1 "success") = true ->
  net (S t) root_request = Normal r2 -> ok r2 = true ->
  json r2 = Normal (VObj fields2) ->
  ToBoolean (lookup_field fields2 "success") = true ->
  snd outcome
  = Normal {| commitment := c;
              merkleProof := lookup_field fields1 "merkleProof";
              root := lookup_field fields2 "root" |}
  /\ (~ In "merkleProof" (map fst fields1) ->
      forall w, snd outcome = Normal w -> merkleProof w = VUndefined)
  /\ (~ In "root" (map fst fields2) ->
      forall w, snd outcome = Normal w -> root w = VUndefined).
Proof.
  intros c outcome E1 Hok1 Hj1 Hs1 E2 Hok2 Hj2 Hs2. subst c.
  pose proof (delivers_object "merkleProof" _ _ Hok1 Hj1 Hs1) as Hp. rewrite <- E1 in Hp.
  pose proof (delivers_object "root" _ _ Hok2 Hj2 Hs2) as Hr. rewrite <- E2 in Hr.
  assert (snd outcome
          = Normal {| commitment := keccak256 (preimage secret nullifier assetId amount);
                      merkleProof := lookup_field fields1 "merkleProof";
                      root := lookup_field fields2 "root" |}) as Hout.
  { subst outcome.
    destruct (generateCommitmentAndProof_run secret nullifier assetId amount net t)
      as [(trace & msg & Hf & _ & _)
         |[(trace & proof & msg & _ & Hf & _ & _)
          |(trace & proof & current & Hp' & Hr' & _ & ->)]].
    - destruct (delivers_not_fails _ _ _ _ _ Hp Hf).
    - destruct (delivers_not_fails _ _ _ _ _ Hr Hf).
    - cbn [snd]. now rewrite (delivers_functional _ _ _ _ Hp Hp'),
                            (delivers_functional _ _ _ _ Hr Hr'). }
  split; [exact Hout|]. rewrite Hout.
  split; intros Hmissing w [= <-]; cbn; now apply lookup_field_missing.
Qed.

(** X11. When the proof has arrived and the root fetch fails,
    [generateCommitmentAndProof] throws the error of [getCurrentRoot],
    whose message is the message of the failure behind
    ["Could not retrieve current root: "]; the proof it already holds is
    dropped with the commitment, and no third request is sent. *)
Theorem generateCommitmentAndProof_root_failure
    secret nullifier assetId amount net t proof msg :
  let c := keccak256 (preimage secret nullifier assetId amount) in
  let outcome := run (generateCommitmentAndProof secret nullifier assetId amount) net t in
  delivers "merkleProof" (net t (proof_request c)) proof ->
  fails "Failed to get current root: " (net (S t) root_request) msg ->
  snd outcome = Throw (new_Error ("Could not retrieve current root: " +:+ msg))
  /\ requests (fst outcome) = [proof_request c; root_request].
Proof.
  intros c outcome Hp Hfail. subst outcome c.
  destruct (generateCommitmentAndProof_run secret nullifier assetId amount net t)
    as [(trace & msg' & Hf & _ & _)
       |[(trace & proof' & msg' & _ & Hf & Hreq & ->)
        |(trace & proof' & current & _ & Hr & _ & _)]].
  - destruct (delivers_not_fails _ _ _ _ _ Hp Hf).
  - cbn [fst snd requests]. now rewrite (fails_functional _ _ _ _ Hf Hfail).
  - destruct (delivers_not_fails _ _ _ _ _ Hr Hfail).
Qed.

(** X12. [getMerkleProof] reports every failure on the console before it
    throws: the last event of a failed run is the [console.error] that
    shows the error caught, and the error thrown carries the message of
    that one behind ["Could not retrieve Merkle proof: "]. A run that
    returns writes no [console.error]. *)
Theorem getMerkleProof_logs_failures commitment net t :
  let outcome := run (getMerkleProof commitment) net t in
  match snd outcome with
  | Normal _ => forall args, ~ In (EvConsole Error args) (fst outcome)
  | Throw e =>
      exists caught,
        list.last (fst outcome)
        = Some (EvConsole Error
                  [ArgStr "🌲 Client: Error fetching Merkle proof:"; ArgErr caught])
        /\ e = new_Error ("Could not retrieve Merkle proof: " +:+ error_text caught)
  end.
Proof.
  intros outcome. subst outcome. unfold getMerkleProof.
  pose (answer := net t (proof_request commitment)).
  assert (net t (proof_request commitment) = answer) as Ea by reflexivity.
  clearbody answer. unfold proof_request in Ea.
  destruct (delivers_or_fails "Failed to get Merkle proof: " "merkleProof" answer)
    as [[v Hd]|[msg Hf]]; [destruct Hd | destruct Hf]; follow_answer.
  1: intros args [E|[E|[E|[]]]]; discriminate E.
  all: eexists; split; reflexivity.
Qed.

End OtherExchanges.

(** ** The route and the client together *)

Section RouteFacts.
Context `{Runtime}.
Variable abi : Type.
Variable CONTRACT_ADDRESS : string.
Variable CONTRACT_ABI : abi.

Lemma getCurrentRoot_delivered net t v :
  delivers "root" (net t root_request) v -> snd (run getCurrentRoot net t) = Normal v.
Proof.
  intros Hd.
  destruct (getCurrentRoot_run net t) as (trace & _ & [(v' & Hd' & ->)|(msg & Hf & ->)]).
  - cbn. now rewrite (delivers_functional _ _ _ _ Hd Hd').
  - destruct (delivers_not_fails _ _ _ _ _ Hd Hf).
Qed.

Lemma getCurrentRoot_failed net t msg :
  fails "Failed to get current root: " (net t root_request) msg ->
  snd (run getCurrentRoot net t)
  = Throw (new_Error ("Could not retrieve current root: " +:+ msg)).
Proof.
  intros Hfail.
  destruct (getCurrentRoot_run net t) as (trace & _ & [(v' & Hd & ->)|(msg' & Hf & ->)]).
  - destruct (delivers_not_fails _ _ _ _ _ Hd Hfail).
  - cbn. f_equal. f_equal. f_equal. clear - Hf Hfail.
    destruct Hf; inversion Hfail; subst; congruence.
Qed.

Lemma GET_answer (contract : Route.contract_call abi -> completion string) :
  exists answer,
    snd (Route.serve abi (Route.GET abi CONTRACT_ADDRESS CONTRACT_ABI) contract)
    = Normal answer
    /\ answer
       = match contract (Route.root_call abi CONTRACT_ADDRESS CONTRACT_ABI) with
         | Normal current =>
             Route.NextResponse_json
               [("success", Route.PBool true); ("root", Route.PStr current)] 200
         | Throw e =>
             Route.NextResponse_json
               [("success", Route.PBool false);
                ("error", Route.PStr "Failed to retrieve current root from contract");
                ("details", Route.PStr (error_text e))] 500
         end.
Proof.
  unfold Route.GET. cbn.
  fold (Route.root_call abi CONTRACT_ADDRESS CONTRACT_ABI).
  destruct (contract _) as [current|e]; cbn; eexists; split; reflexivity.
Qed.

(** X13. The route always answers and reads the contract once, calling
    [getCurrentRoot] without arguments. When the read succeeds the answer
    has status 200 and the body [{success: true, root}]; when it throws,
    status 500 and the body [{success: false, error, details}] whose
    [details] is the message of the error. The [success] of the body is
    true exactly when the response is ok, and the answer for an unexpected
    error is never given. *)
Theorem GET_always_answers (contract : Route.contract_call abi -> completion string) :
  let call := Route.root_call abi CONTRACT_ADDRESS CONTRACT_ABI in
  let outcome := Route.serve abi (Route.GET abi CONTRACT_ADDRESS CONTRACT_ABI) contract in
  Route.calls abi (fst outcome) = [call]
  /\ exists answer,
       snd outcome = Normal answer
       /\ answer
          = match contract call with
            | Normal current =>
                Route.NextResponse_json
                  [("success", Route.PBool true); ("root", Route.PStr current)] 200
            | Throw e =>
                Route.NextResponse_json
                  [("success", Route.PBool false);
                   ("error", Route.PStr "Failed to retrieve current root from contract");
                   ("details", Route.PStr (error_text e))] 500
            end
       /\ (ok answer = true <-> exists current, contract call = Normal current)
       /\ (exists data, json answer = Normal data
                        /\ get_property data "success" = Normal (VBool (ok answer))).
Proof.
  intros call outcome. subst outcome call. unfold Route.GET, Route.root_call. cbn.
  destruct (contract _) as [current|e]; cbn.
  - split; [reflexivity|]. eexists. split; [reflexivity|]. split; [reflexivity|].
    split; [split; eauto|]. eexists. split; reflexivity.
  - split; [reflexivity|]. eexists. split; [reflexivity|]. split; [reflexivity|].
    split; [split; [discriminate | intros [? [=]]]|]. eexists. split; reflexivity.
Qed.

(** X14. The client against the route. When the root request is answered
    by the route, [getCurrentRoot] returns the root the contract gave, as a
    string; and when the contract read throws, it throws an [Error] whose
    message holds, behind ["Could not retrieve current root: "] and
    ["Failed to get current root: "], the text of the body the route sent,
    with the message of the contract error under [details]. *)
Theorem getCurrentRoot_through_route net t
    (contract : Route.contract_call abi -> completion string) :
  let call := Route.root_call abi CONTRACT_ADDRESS CONTRACT_ABI in
  net t root_request
  = snd (Route.serve abi (Route.GET abi CONTRACT_ADDRESS CONTRACT_ABI) contract) ->
  snd (run getCurrentRoot net t)
  = match contract call with
    | Normal current => Normal (VStr current)
    | Throw e =>
        Throw (new_Error
                 ("Could not retrieve current root: Failed to get current root: "
                  +:+ Route.stringify_object
                        [("success", Route.PBool false);
                         ("error", Route.PStr "Failed to retrieve current root from contract");
                         ("details", Route.PStr (error_text e))]))
    end.
Proof.
  intros call Hnet.
  destruct (GET_answer contract) as [answer Hanswer].
  fold call in Hanswer. destruct Hanswer as [Hserved Hshape].
  rewrite Hserved in Hnet. destruct (contract call) as [current|e]; subst answer.
  - apply getCurrentRoot_delivered. rewrite Hnet.
    econstructor; reflexivity.
  - rewrite (getCurrentRoot_failed net t
               ("Failed to get current root: "
                +:+ Route.stringify_object
                      [("success", Route.PBool false);
                       ("error", Route.PStr "Failed to retrieve current root from contract");
                       ("details", Route.PStr (error_text e))])).
    + reflexivity.
    + rewrite Hnet. apply fails_status; reflexivity.
Qed.

End RouteFacts.

(** ** The withdraw button *)

(** X15. A click sends a transaction only from a complete and valid
    form: the token is ETH, the root, the nullifier hash and the recipient
    are not empty, the recipient is an address other than the zero address,
    and the hook has given [writeContract]. The call is then [withdraw] on
    the contract of the page with the root, the nullifier hash and the
    recipient as typed, in this order, after 100 ms; the root and the
    nullifier hash are not checked any further. In every other case the
    click shows an alert and sends nothing. *)
Theorem handleWithdraw_submits
    (isAddress : string -> bool) selectedToken root nullifierHash recipient writeContract :
  let clicked :=
    WithdrawPage.handleWithdraw isAddress selectedToken root nullifierHash recipient
      writeContract in
  (forall call delay,
     clicked = WithdrawPage.SetTimeout call delay
     <-> selectedToken = "ETH"
         /\ root <> EmptyString /\ nullifierHash <> EmptyString /\ recipient <> EmptyString
         /\ isAddress recipient = true /\ recipient <> WithdrawPage.zeroAddress
         /\ writeContract = true
         /\ delay = 100
         /\ call = {| WithdrawPage.abi := WithdrawPage.TornadoAbi;
                      WithdrawPage.address := WithdrawPage.TORNADO_CONTRACT_ADDRESS;
                      WithdrawPage.functionName := "withdraw";
                      WithdrawPage.args := [root; nullifierHash; recipient] |})
  /\ ((exists message, clicked = WithdrawPage.Alert message)
      \/ (exists call, clicked = WithdrawPage.SetTimeout call 100)).
Proof.
  intros clicked. subst clicked. unfold WithdrawPage.handleWithdraw, WithdrawPage.is_empty.
  destruct (String.eqb_spec selectedToken "ETH") as [Ht|Ht];
  destruct (String.eqb_spec root EmptyString) as [Hr|Hr];
  destruct (String.eqb_spec nullifierHash EmptyString) as [Hn|Hn];
  destruct (String.eqb_spec recipient EmptyString) as [Hc|Hc];
  destruct (isAddress recipient) eqn:Ha;
  destruct (String.eqb_spec recipient WithdrawPage.zeroAddress) as [Hz|Hz];
  destruct writeContract; cbn [negb orb];
  (split; [intros call delay; split;
             [intros E; try discriminate E; injection E as <- <-; tauto
             | intros (? & ? & ? & ? & ? & ? & ? & -> & ->);
               first [reflexivity | congruence | tauto ]]
          | eauto ]).
Qed.

(** ** The further statements at concrete inputs *)

Lemma hexToBytes_drops_odd_tail_witness : hexToBytes "0x01a" = hexToBytes "0x01".
Proof.
  apply (@hexToBytes_drops_odd_tail "0x01" "a"%char).
  exists 1%nat. reflexivity.
Defined.

Lemma hexToBytes_lenient_pairs_witness :
  hexToBytes " 7" = [7] /\ hexToBytes "+7" = [7] /\ hexToBytes "-7" = [249]
  /\ hexToBytes "7z" = [7].
Proof.
  destruct (@hexToBytes_lenient_pairs "7"%char 7 eq_refl) as (E1 & E2 & E3 & E4).
  split; [exact E1|]. split; [exact E2|]. split; [exact E3|].
  apply (E4 "z"%char); [reflexivity | discriminate].
Defined.

(** A click with every field filled in, and one on the zero address. *)
Example handleWithdraw_clicks :
  WithdrawPage.handleWithdraw sample_isAddress "ETH" "0xaa" "0xbb"
    "0xb581c9264f59bf0289fa76d61b2d0746dce3c30d" true
  = WithdrawPage.SetTimeout
      {| WithdrawPage.abi := WithdrawPage.TornadoAbi;
         WithdrawPage.address := WithdrawPage.TORNADO_CONTRACT_ADDRESS;
         WithdrawPage.functionName := "withdraw";
         WithdrawPage.args := ["0xaa"; "0xbb"; "0xb581c9264f59bf0289fa76d61b2d0746dce3c30d"] |}
      100
  /\ WithdrawPage.handleWithdraw sample_isAddress "ETH" "0xaa" "0xbb"
       WithdrawPage.zeroAddress true
     = WithdrawPage.Alert "Invalid recipient address".
Proof. split; reflexivity. Qed.

Lemma hexToBytes_upper_prefix_witness :
  hexToBytes "0X01" = [0; 1] /\ hexToBytes "0X01" <> hexToBytes "0x01".
Proof.
  destruct (@hexToBytes_upper_prefix "01" eq_refl) as [E Hne].
  split; [exact E | exact Hne].
Defined.

Lemma hexToBytes_case_insensitive_witness :
  hexToBytes "0xAB" = hexToBytes "0xab"
  /\ @calculateCommitment sample_runtime "0xAB" "0xCD" 1 2
     = @calculateCommitment sample_runtime "0xab" "0xcd" 1 2.
Proof.
  destruct (@hexToBytes_case_insensitive sample_runtime "0xab" "0xcd" 1 2)
    as (Es & _ & Ec).
  - eexists; reflexivity.
  - eexists; reflexivity.
  - split; [exact Es | exact Ec].
Defined.

Lemma stringify_commitment_of_hex_witness :
  Json.stringify_commitment "0xab"
  = "{" +:+ Json.dquote +:+ "commitment" +:+ Json.dquote +:+ ":"
    +:+ Json.dquote +:+ "0x" +:+ "ab" +:+ Json.dquote +:+ "}".
Proof.
  apply (stringify_commitment_of_hex "ab").
  cbn. repeat split; eexists; reflexivity.
Defined.

Lemma generateCommitmentAndProof_reads_fields_witness :
  snd (@run sample_runtime _
         (@generateCommitmentAndProof sample_runtime "0x01" "0x02" 1 1000000000000000000)
         (always (json_response true (VObj [("success", VBool true)]))) 0)
  = Normal (@Build_withdrawal sample_runtime
              (sample_keccak256 (preimage "0x01" "0x02" 1 1000000000000000000))
              VUndefined VUndefined).
Proof.
  refine (proj1 (@generateCommitmentAndProof_reads_fields sample_runtime
                   "0x01" "0x02" 1 1000000000000000000
                   (always (json_response true (VObj [("success", VBool true)]))) 0
                   _ [("success", VBool true)] _ [("success", VBool true)]
                   eq_refl eq_refl eq_refl eq_refl eq_refl eq_refl eq_refl eq_refl)).
Defined.

Lemma generateCommitmentAndProof_root_failure_witness :
  let net : @network sample_runtime :=
    fun _ req =>
      if String.eqb (url req) "/api/getMerkleProof"
      then json_response true (proof_body lopsided_proof)
      else text_response false "Bad Gateway" in
  snd (@run sample_runtime _
         (@generateCommitmentAndProof sample_runtime "0x01" "0x02" 1 1000000000000000000)
         net 0)
  = Throw (new_Error
             "Could not retrieve current root: Failed to get current root: Bad Gateway").
Proof.
  intros net.
  refine (proj1 (@generateCommitmentAndProof_root_failure sample_runtime
                   "0x01" "0x02" 1 1000000000000000000 net 0 lopsided_proof
                   "Failed to get current root: Bad Gateway" _ _)).
  - eapply (@delivers_field sample_runtime "merkleProof"); reflexivity.
  - apply (@fails_status sample_runtime "Failed to get current root: " _ "Bad Gateway");
      reflexivity.
Defined.

Lemma getCurrentRoot_through_route_witness :
  snd (@run sample_runtime _ (@getCurrentRoot sample_runtime)
         (served_by (Normal "0xaa")) 0)
  = Normal (VStr "0xaa")
  /\ exists message,
       snd (@run sample_runtime _ (@getCurrentRoot sample_runtime)
              (served_by (Throw (ErrorObject "ContractFunctionExecutionError" "reverted"))) 0)
       = Throw (new_Error message).
Proof.
  split.
  - exact (@getCurrentRoot_through_route sample_runtime unit "0xc0ffee" tt
             (served_by (Normal "0xaa")) 0 (sample_contract (Normal "0xaa")) eq_refl).
  - eexists.
    exact (@getCurrentRoot_through_route sample_runtime unit "0xc0ffee" tt
             (served_by (Throw (ErrorObject "ContractFunctionExecutionError" "reverted"))) 0
             (sample_contract (Throw (ErrorObject "ContractFunctionExecutionError" "reverted")))
             eq_refl).
Defined.
